(** * The weighted multi-term training objective of [loss/__init__.py]

    A shallow embedding of the class [Loss]: its constructor, which parses
    the configuration string and builds the list of loss terms, and its
    methods [forward], [step], [start_log], [end_log], [get_loss_module]
    and [load].

    Numbers.  The tensors and Python floats of the program are idealised
    as exact rationals ([Qc]); rounding is outside the model.

    Collaborators.  What the class calls but does not define (the
    [float] builtin, the constructors of the loss sub-modules, the
    sub-modules' own [forward], [conv2d], tensor division, the state-dict
    loader) is gathered in the class [Runtime]; every definition and
    theorem below is parametric in it. *)

From Stdlib Require Import String Ascii List ZArith QArith Qcanon Lia Bool.
Import ListNotations.

Open Scope string_scope.
Open Scope list_scope.
Open Scope Z_scope.

(* ------------------------------------------------------------------ *)
(** ** Python strings and sequences *)

(** [s.split(sep)] for a one-character separator: never the empty list. *)
Fixpoint split (sep : ascii) (s : string) : list string :=
  match s with
  | EmptyString => [EmptyString]
  | String c s' =>
      if Ascii.eqb c sep then EmptyString :: split sep s'
      else match split sep s' with
           | [] => [String c EmptyString]
           | w :: ws => String c w :: ws
           end
  end.

Fixpoint find_from (sub s : string) (i : Z) : Z :=
  if prefix sub s then i
  else match s with
       | EmptyString => -1
       | String _ s' => find_from sub s' (i + 1)
       end.

(** [s.find(sub)]: the lowest index where [sub] occurs, or [-1]. *)
Definition find (s sub : string) : Z := find_from sub s 0.

(** [s[n:]] for a non-negative [n]. *)
Fixpoint slice_from (n : nat) (s : string) : string :=
  match n, s with
  | O, _ => s
  | S n', String _ s' => slice_from n' s'
  | S _, EmptyString => EmptyString
  end.

(** The position a Python index denotes in a sequence of length [len]:
    negative indices count from the end. *)
Definition py_index (len : nat) (i : Z) : option nat :=
  if (0 <=? i) && (i <? Z.of_nat len) then Some (Z.to_nat i)
  else if (i <? 0) && (0 <=? Z.of_nat len + i) then Some (Z.to_nat (Z.of_nat len + i))
  else None.

Definition py_get {A : Type} (l : list A) (i : Z) : option A :=
  match py_index (length l) i with
  | Some k => nth_error l k
  | None => None
  end.

Fixpoint alter {A : Type} (f : A -> A) (i : nat) (l : list A) : list A :=
  match l, i with
  | [], _ => []
  | x :: l', O => f x :: l'
  | x :: l', S i' => x :: alter f i' l'
  end.

Fixpoint enumerate_from {A : Type} (i : nat) (l : list A) : list (nat * A) :=
  match l with
  | [] => []
  | x :: l' => (i, x) :: enumerate_from (S i) l'
  end.

Definition enumerate {A : Type} (l : list A) : list (nat * A) :=
  enumerate_from 0 l.

(* ------------------------------------------------------------------ *)
(** ** Numbers and exceptions *)

Definition num : Type := Qc.

Definition num_of_Z (z : Z) : num := Q2Qc (inject_Z z).

Inductive exn : Type :=
| ValueError
| UnboundLocalError
| NotImplementedError
| TypeError
| AttributeError
| IndexError
| RuntimeError
| OtherError (msg : string).

(* ------------------------------------------------------------------ *)
(** ** The data model *)

(** The fields of [args] the class reads. *)
Module Args.
Record t : Type := mk {
  n_GPUs : Z;
  intensity_loss : bool;
  normalized_loss : bool;
  rgb_range : Z;
  loss : string;
  n_channel_out : Z;
  cpu : bool;
  patch_size : Z;
  batch_size : Z;
  precision : string;
  load : string
}.
End Args.

(** The constructor calls of the [if]/[elif] chain, with their arguments. *)
Inductive ctor_call : Type :=
| MSELoss
| L1Loss
| Charbonnier
| GradL2 (n_channel_out : Z) (cuda : bool)
| SSIM (patch_size batch_size n_channel_out : Z) (cuda : bool)
| MSSSIM (patch_size batch_size n_channel_out : Z) (cuda : bool)
| WeightedMSE
| VGG (conv_index : string) (rgb_range : Z)
| Adversarial (args : Args.t) (gan_type : string).

(** A loss sub-module as this class observes it: [scheduler] is [Some k]
    when the object has a [scheduler] attribute, stepped [k] times so far;
    [loss_attr] is its [loss] attribute when it has one. *)
Record Module : Type := mkModule {
  made_by : ctor_call;
  scheduler : option nat;
  loss_attr : option num
}.

(** An entry of [self.loss]; [function] refers to an object of the store. *)
Record LossTerm : Type := mkTerm {
  type : string;
  weight : num;
  function : option nat
}.

(** [self.loss_module]: the [nn.ModuleList], wrapped or not. *)
Inductive container : Type :=
| ModuleList (items : list nat)
| DataParallel (module : list nat) (device_ids : Z).

Record Loss : Type := mkLoss {
  n_GPUs : Z;
  loss : list LossTerm;
  loss_module : container;
  intensity_loss : bool;
  normalize : bool;
  rgb_range : num;
  intensity_conv : option (list num);
  log : list (list num);
  heap : list Module
}.

Definition set_log (g : list (list num)) (L : Loss) : Loss :=
  mkLoss (n_GPUs L) (loss L) (loss_module L) (intensity_loss L) (normalize L)
         (rgb_range L) (intensity_conv L) g (heap L).

Definition set_heap (h : list Module) (L : Loss) : Loss :=
  mkLoss (n_GPUs L) (loss L) (loss_module L) (intensity_loss L) (normalize L)
         (rgb_range L) (intensity_conv L) (log L) h.

(** The collaborators of the class. *)
Class Runtime : Type := {
  tensor : Type;
  state_blob : Type;
  (** [float(s)]; [None] stands for its [ValueError]. *)
  py_float : string -> option num;
  (** The call of a loss constructor. *)
  construct : ctor_call -> exn + Module;
  (** [m(sr, hr)]: the value, and the sub-module afterwards. *)
  call : Module -> tensor -> tensor -> exn + (num * Module);
  (** [nn.functional.conv2d(x, k)] for a kernel of shape (1, 3, 1, 1),
      given by its three channel weights. *)
  conv2d : tensor -> list num -> exn + tensor;
  (** [x / c] for a tensor [x] and a number [c]. *)
  tensor_div : tensor -> num -> tensor;
  (** [self.load_state_dict(blob)], on the sub-modules of [self]. *)
  load_state_dict : list nat -> list Module -> state_blob -> exn + list Module
}.

(** What [torch.load] finds in the checkpoint directory; [None] for a file
    that cannot be read. *)
Record Checkpoint `{Runtime} : Type := mkCheckpoint {
  loss_pt : option state_blob;
  loss_log_pt : option (list (list num))
}.

(* ------------------------------------------------------------------ *)
(** ** Exceptions and mutable state *)

(** Code that may raise. *)
Definition ebind {A B : Type} (c : exn + A) (k : A -> exn + B) : exn + B :=
  match c with
  | inl e => inl e
  | inr a => k a
  end.

Notation "'let?' x := c 'in' k" := (ebind c (fun x => k))
  (at level 10, x pattern, c at level 100, k at level 200).

(** A method of [self]: it may raise, and what it did to [self] before
    raising stays done. *)
Definition M (A : Type) : Type := Loss -> (exn + A) * Loss.

Definition ret {A : Type} (a : A) : M A := fun L => (inr a, L).

Definition raise {A : Type} (e : exn) : M A := fun L => (inl e, L).

Definition bind {A B : Type} (c : M A) (k : A -> M B) : M B :=
  fun L => match c L with
           | (inl e, L') => (inl e, L')
           | (inr a, L') => k a L'
           end.

Definition lift {A : Type} (r : exn + A) : M A := fun L => (r, L).

Definition gets {A : Type} (f : Loss -> A) : M A := fun L => (inr (f L), L).

Definition modify (f : Loss -> Loss) : M unit := fun L => (inr tt, f L).

Notation "x <- c ;; k" := (bind c (fun x => k))
  (at level 100, c at next level, right associativity).
Notation "' p <- c ;; k" := (bind c (fun x => match x with p => k end))
  (at level 100, p pattern, c at next level, right associativity).
Notation "c ;; k" := (bind c (fun _ => k))
  (at level 100, right associativity).

(** The object a reference denotes. *)
Definition deref (r : nat) : M Module :=
  fun L => match nth_error (heap L) r with
           | Some m => (inr m, L)
           | None => (inl (OtherError "no such object"), L)
           end.

Definition store (r : nat) (m : Module) : M unit :=
  modify (fun L => set_heap (alter (fun _ => m) r (heap L)) L).

(** [self.log[r, c] += x]. *)
Definition log_iadd (r c : Z) (x : num) : M unit :=
  fun L =>
    match py_index (length (log L)) r with
    | None => (inl IndexError, L)
    | Some ri =>
        match nth_error (log L) ri with
        | None => (inl IndexError, L)
        | Some row =>
            match py_index (length row) c with
            | None => (inl IndexError, L)
            | Some ci =>
                (inr tt,
                 set_log (alter (alter (fun v => (v + x)%Qc) ci) ri (log L)) L)
            end
        end
    end.

(** [sum(losses)]. *)
Definition sum (losses : list num) : num :=
  fold_left Qcplus losses (Q2Qc 0).

(* ------------------------------------------------------------------ *)
(** ** The methods of [Loss] *)

Section Methods.

Context `{RT : Runtime}.

(** The intensity projection of [forward]. *)
Definition project (sr hr : tensor) : M (tensor * tensor) :=
  b <- gets intensity_loss ;;
  if b then
    k <- gets intensity_conv ;;
    match k with
    | None => raise AttributeError
    | Some k =>
        sr' <- lift (conv2d sr k) ;;
        hr' <- lift (conv2d hr k) ;;
        ret (sr', hr')
    end
  else ret (sr, hr).

(** The normalisation of [forward]. *)
Definition rescale (sr hr : tensor) : M (tensor * tensor) :=
  b <- gets normalize ;;
  if b then
    c <- gets rgb_range ;;
    ret (tensor_div sr c, tensor_div hr c)
  else ret (sr, hr).

(** One round of the loop of [forward], for the entry [l] at index [i];
    the result is what the round appends to [losses]. *)
Definition forward_term (sr hr : tensor) (i : nat) (l : LossTerm)
  : M (option num) :=
  match function l with
  | Some r =>
      m <- deref r ;;
      ' (v, m') <- lift (call m sr hr) ;;
      store r m' ;;
      let effective_loss := (weight l * v)%Qc in
      log_iadd (-1) (Z.of_nat i) effective_loss ;;
      ret (Some effective_loss)
  | None =>
      if (type l =? "DIS")%string then
        prev <- gets (fun L => py_get (loss L) (Z.of_nat i - 1)) ;;
        match prev with
        | None => raise IndexError
        | Some p =>
            match function p with
            | None => raise AttributeError
            | Some r =>
                m <- deref r ;;
                match loss_attr m with
                | None => raise AttributeError
                | Some d => log_iadd (-1) (Z.of_nat i) d ;; ret None
                end
            end
        end
      else ret None
  end.

Fixpoint forward_loop (sr hr : tensor) (entries : list (nat * LossTerm))
  (losses : list num) : M (list num) :=
  match entries with
  | [] => ret losses
  | (i, l) :: rest =>
      o <- forward_term sr hr i l ;;
      forward_loop sr hr rest
        (match o with Some e => losses ++ [e] | None => losses end)
  end.

(** The loop of [forward] and what follows it.  [sum] of no losses is the
    integer 0, which has no [item()]. *)
Definition accumulate (sr hr : tensor) : M num :=
  ls <- gets loss ;;
  losses <- forward_loop sr hr (enumerate ls) [] ;;
  let loss_sum := sum losses in
  (if (1 <? Z.of_nat (length ls)) then
     match losses with
     | [] => raise AttributeError
     | _ :: _ => log_iadd (-1) (-1) loss_sum
     end
   else ret tt) ;;
  ret loss_sum.

Definition forward (sr hr : tensor) : M num :=
  ' (sr, hr) <- project sr hr ;;
  ' (sr, hr) <- rescale sr hr ;;
  accumulate sr hr.

(** [l.scheduler.step()]. *)
Definition scheduler_step (m : Module) : Module :=
  mkModule (made_by m) (option_map S (scheduler m)) (loss_attr m).

(** [if hasattr(l, 'scheduler'):] step it [times] times. *)
Definition step_scheduler (times : nat) (r : nat) : M unit :=
  m <- deref r ;;
  match scheduler m with
  | Some _ => store r (Nat.iter times scheduler_step m)
  | None => ret tt
  end.

Fixpoint for_each (body : nat -> M unit) (items : list nat) : M unit :=
  match items with
  | [] => ret tt
  | r :: rest => body r ;; for_each body rest
  end.

(** [for l in c]: a [DataParallel] has neither [__iter__] nor
    [__getitem__]. *)
Definition iterate (c : container) : M (list nat) :=
  match c with
  | ModuleList items => ret items
  | DataParallel _ _ => raise TypeError
  end.

Definition get_loss_module : M container :=
  n <- gets n_GPUs ;;
  c <- gets loss_module ;;
  if n =? 1 then ret c
  else match c with
       | DataParallel items _ => ret (ModuleList items)
       | ModuleList _ => raise AttributeError
       end.

Definition step : M unit :=
  c <- get_loss_module ;;
  items <- iterate c ;;
  for_each (step_scheduler 1) items.

(** [torch.cat] of the log and a row of zeros: the rows must have the width
    of the new row; the empty tensor the constructor leaves is accepted. *)
Definition start_log : M unit :=
  fun L =>
    let width := length (loss L) in
    if forallb (fun row => Nat.eqb (length row) width) (log L)
    then (inr tt, set_log (log L ++ [repeat (Q2Qc 0) width]) L)
    else (inl RuntimeError, L).

(** [self.log[-1].div_(n_batches)]; indexing a log without rows raises. *)
Definition end_log (n_batches : Z) : M unit :=
  fun L =>
    match py_index (length (log L)) (-1) with
    | None => (inl IndexError, L)
    | Some ri =>
        (inr tt,
         set_log (alter (map (fun v => (v / num_of_Z n_batches)%Qc)) ri (log L)) L)
    end.

(** The sub-modules registered under [self], in order. *)
Definition submodules (c : container) : list nat :=
  match c with
  | ModuleList items => items
  | DataParallel items _ => items
  end.

(** [cpu] only chooses the [map_location] of [torch.load]. *)
Definition load (apath : Checkpoint) (cpu : bool) : M unit :=
  blob <- match loss_pt apath with
          | Some b => ret b
          | None => raise (OtherError "loss.pt")
          end ;;
  c <- gets loss_module ;;
  h <- gets heap ;;
  h' <- lift (load_state_dict (submodules c) h blob) ;;
  modify (set_heap h') ;;
  g <- match loss_log_pt apath with
       | Some g => ret g
       | None => raise (OtherError "loss_log.pt")
       end ;;
  modify (set_log g) ;;
  items <- iterate c ;;
  for_each (step_scheduler (length g)) items.

(** *** The constructor *)

(** The branch of the [if]/[elif] chain a kind takes; [None] when it takes
    none, and [loss_function] is not assigned. *)
Definition select (args : Args.t) (loss_type : string) : option ctor_call :=
  if (loss_type =? "MSE")%string then Some MSELoss
  else if (loss_type =? "L1")%string then Some L1Loss
  else if (loss_type =? "Charbonnier")%string then Some Charbonnier
  else if (loss_type =? "GradL2")%string then
    Some (GradL2 (Args.n_channel_out args) (negb (Args.cpu args)))
  else if (loss_type =? "SSIM")%string then
    Some (SSIM (Args.patch_size args) (Args.batch_size args)
               (Args.n_channel_out args) (negb (Args.cpu args)))
  else if (loss_type =? "MSSSIM")%string then
    Some (MSSSIM (Args.patch_size args) (Args.batch_size args)
                 (Args.n_channel_out args) (negb (Args.cpu args)))
  else if (loss_type =? "WeightedMSE")%string then Some WeightedMSE
  else if 0 <=? find loss_type "VGG" then
    Some (VGG (slice_from 3 loss_type) (Args.rgb_range args))
  else if 0 <=? find loss_type "GAN" then Some (Adversarial args loss_type)
  else None.

(** What the loop over the terms has built so far: [self.loss], the
    objects constructed, and the local variable [loss_function]
    ([None] while it is unbound). *)
Record locals : Type := mkLocals {
  self_loss : list LossTerm;
  objects : list Module;
  loss_function : option nat
}.

(** One round of the loop over [args.loss.split('+')]. *)
Definition init_term (args : Args.t) (st : locals) (term : string)
  : exn + locals :=
  match split "*" term with
  | [weight; loss_type] =>
      let? (h, f) :=
        match select args loss_type with
        | Some c =>
            let? m := construct c in
            inr (objects st ++ [m], Some (length (objects st)))
        | None => inr (objects st, loss_function st)
        end in
      let? w := match py_float weight with
                | Some w => inr w
                | None => inl ValueError
                end in
      let? r := match f with
                | Some r => inr r
                | None => inl UnboundLocalError
                end in
      let entries := self_loss st ++ [mkTerm loss_type w (Some r)] in
      inr (mkLocals
             (if 0 <=? find loss_type "GAN"
              then entries ++ [mkTerm "DIS" (Q2Qc 1) None]
              else entries)
             h (Some r))
  | _ => inl ValueError
  end.

Fixpoint init_terms (args : Args.t) (st : locals) (terms : list string)
  : exn + locals :=
  match terms with
  | [] => inr st
  | term :: rest =>
      let? st' := init_term args st term in
      init_terms args st' rest
  end.

(** The kernel for the range 255: 0.299, 0.587, 0.114. *)
Definition luma : list num :=
  [Q2Qc (299 # 1000); Q2Qc (587 # 1000); Q2Qc (114 # 1000)].

(** [self.intensity_conv], when the constructor sets it: [torch.zeros],
    then the three assignments for the range 255. *)
Definition init_intensity (args : Args.t) : exn + option (list num) :=
  if Args.intensity_loss args then
    if Args.rgb_range args =? 255 then inr (Some luma)
    else if Args.rgb_range args =? 1 then inl NotImplementedError
    else inr (Some [Q2Qc 0; Q2Qc 0; Q2Qc 0])
  else inr None.

(** The references of the entries that have a callable, in order. *)
Fixpoint callables (ls : list LossTerm) : list nat :=
  match ls with
  | [] => []
  | l :: rest =>
      match function l with
      | Some r => r :: callables rest
      | None => callables rest
      end
  end.

(** [Loss(args, ckp)].  Device placement and the cast to half precision
    change nothing this model observes and are left out. *)
Definition __init__ (args : Args.t) (ckp : Checkpoint) : exn + Loss :=
  let? conv := init_intensity args in
  let? st := init_terms args (mkLocals [] [] None)
                        (split "+" (Args.loss args)) in
  let ls :=
    if (1 <? Z.of_nat (length (self_loss st)))
    then self_loss st ++ [mkTerm "Total" (Q2Qc 0) None]
    else self_loss st in
  let ml := ModuleList (callables ls) in
  let self :=
    mkLoss (Args.n_GPUs args) ls
           (if negb (Args.cpu args) && (1 <? Args.n_GPUs args)
            then DataParallel (callables ls) (Args.n_GPUs args)
            else ml)
           (Args.intensity_loss args) (Args.normalized_loss args)
           (num_of_Z (Args.rgb_range args)) conv [] (objects st) in
  if negb (Args.load args =? ".")%string then
    match load ckp (Args.cpu args) self with
    | (inl e, _) => inl e
    | (inr _, self') => inr self'
    end
  else inr self.

End Methods.

(* ------------------------------------------------------------------ *)
(** ** Vocabulary of the statements *)

(** The fields of [self] that only the constructor assigns. *)
Definition config (L : Loss) :=
  (n_GPUs L, loss L, loss_module L, intensity_loss L, normalize L,
   rgb_range L, intensity_conv L).

(** The number of rows of the log and the width of each. *)
Definition log_shape (L : Loss) : list nat := map (@length num) (log L).

(** [c] leaves the observation [f] of [self] as it was, raising or not. *)
Definition keeps {A B : Type} (f : Loss -> B) (c : M A) : Prop :=
  forall L, f (snd (c L)) = f L.

(** The last entry the constructor appends when the list has more than
    one. *)
Definition Total : LossTerm := mkTerm "Total" (Q2Qc 0) None.

(** The list the constructor leaves in [self.loss], from what the loop
    built. *)
Definition with_total (ls : list LossTerm) : list LossTerm :=
  if (1 <? Z.of_nat (length ls)) then ls ++ [Total] else ls.

(** The term has no ['*'] in it. *)
Definition lacks_star (term : string) : Prop :=
  ~ In "*"%char (list_ascii_of_string term).

(** What stands before the first ['*'] of a term. *)
Definition weight_field (term : string) : string :=
  hd EmptyString (split "*" term).

(** The log has [len(self.loss)] columns in every row. *)
Definition log_ok (L : Loss) : Prop :=
  Forall (fun row : list num => length row = length (loss L)) (log L).

(** What one entry of [self.loss] yields in a call of [forward]. *)
Inductive reading : Type :=
| Real (effective_loss : num)
| Readout (dis : num)
| Nothing.

(** The readings that enter the returned sum. *)
Definition reals (rs : list reading) : list num :=
  flat_map (fun r => match r with Real e => [e] | _ => [] end) rs.

(** What a reading adds to its column of the log. *)
Definition contribution (r : reading) : num :=
  match r with
  | Real e => e
  | Readout d => d
  | Nothing => Q2Qc 0
  end.

(** Column by column, [row] plus [cs]. *)
Fixpoint add_row (row cs : list num) : list num :=
  match row, cs with
  | x :: row', c :: cs' => (x + c)%Qc :: add_row row' cs'
  | _, _ => row
  end.

Section Readings.

Context `{RT : Runtime}.

(** The inputs the term callables receive: [sr] and [hr] after the
    projection and the normalisation that [self] is configured with. *)
Definition prepared (L : Loss) (sr hr : tensor) : exn + tensor * tensor :=
  fst ((' (sr, hr) <- project sr hr ;; rescale sr hr) L).

(** The reading of the entry [l] at index [i] of the list [ls], on the
    objects [h]: a callable is called and its value weighted; a DIS entry
    reads the [loss] attribute of the callable of the entry before it. *)
Definition read_term (ls : list LossTerm) (sr hr : tensor) (i : nat)
  (l : LossTerm) (h : list Module) : exn + reading * list Module :=
  match function l with
  | Some r =>
      match nth_error h r with
      | None => inl (OtherError "no such object")
      | Some m =>
          let? (v, m') := call m sr hr in
          inr (Real (weight l * v)%Qc, alter (fun _ => m') r h)
      end
  | None =>
      if (type l =? "DIS")%string then
        match py_get ls (Z.of_nat i - 1) with
        | None => inl IndexError
        | Some p =>
            match function p with
            | None => inl AttributeError
            | Some r =>
                match nth_error h r with
                | None => inl (OtherError "no such object")
                | Some m =>
                    match loss_attr m with
                    | None => inl AttributeError
                    | Some d => inr (Readout d, h)
                    end
                end
            end
        end
      else inr (Nothing, h)
  end.

(** The readings of the entries in order, each on the objects the
    earlier calls left. *)
Fixpoint read_terms (ls : list LossTerm) (sr hr : tensor)
  (entries : list (nat * LossTerm)) (h : list Module)
  : exn + list reading * list Module :=
  match entries with
  | [] => inr ([], h)
  | (i, l) :: rest =>
      let? (r, h1) := read_term ls sr hr i l h in
      let? (rs, h2) := read_terms ls sr hr rest h1 in
      inr (r :: rs, h2)
  end.

(** The reading [r] belongs to the entry [l]: the weight of [l] times a
    value its callable returned on [sr], [hr] when [l] has a callable; a
    readout for a DIS entry; nothing for any other entry. *)
Definition reading_of (sr hr : tensor) (l : LossTerm) (r : reading) : Prop :=
  match function l with
  | Some _ =>
      exists m v m', call m sr hr = inr (v, m') /\ r = Real (weight l * v)%Qc
  | None =>
      if (type l =? "DIS")%string then exists d, r = Readout d
      else r = Nothing
  end.

(** [self.log[-1, -1] += s] on a row. *)
Definition add_last (s : num) (row : list num) : list num :=
  alter (fun x => (x + s)%Qc) (length row - 1) row.

(** The first entry has a callable. *)
Definition headed (ls : list LossTerm) : Prop :=
  exists l rest r, ls = l :: rest /\ function l = Some r.

(** The operations of an epoch. *)
Inductive op : Type :=
| StartLog
| Forward (sr hr : tensor)
| EndLog (n_batches : Z).

(** [self] after an operation, whether it raised or not. *)
Definition after (o : op) (L : Loss) : Loss :=
  match o with
  | StartLog => snd (start_log L)
  | Forward sr hr => snd (forward sr hr L)
  | EndLog n_batches => snd (end_log n_batches L)
  end.

Definition run (ops : list op) (L : Loss) : Loss :=
  fold_left (fun S o => after o S) ops L.

End Readings.

(** A sub-module after [times] rounds of
    [if hasattr(l, 'scheduler'): l.scheduler.step()]. *)
Definition advance (times : nat) (m : Module) : Module :=
  mkModule (made_by m) (option_map (fun k => (k + times)%nat) (scheduler m))
           (loss_attr m).

(** The objects after the loop over [items] has advanced each. *)
Definition advance_all (times : nat) (items : list nat) (h : list Module)
  : list Module :=
  fold_left (fun h r => alter (advance times) r h) items h.

(* ------------------------------------------------------------------ *)
(** ** A runtime to run the model on *)

Definition digit (c : ascii) : option Z :=
  let n := Z.of_nat (nat_of_ascii c) in
  if (48 <=? n) && (n <=? 57) then Some (n - 48) else None.

Fixpoint digits (s : string) (acc : Z) : option Z :=
  match s with
  | EmptyString => Some acc
  | String c s' =>
      match digit c with
      | Some d => digits s' (10 * acc + d)
      | None => None
      end
  end.

(** Plain decimal literals, [12] and [0.5]: a part of what [float] reads. *)
Definition decimal_float (s : string) : option num :=
  match split "." s with
  | [String c a] =>
      option_map num_of_Z (digits (String c a) 0)
  | [String c a; String d b] =>
      match digits (String c a) 0, digits (String d b) 0 with
      | Some n, Some f =>
          let scale := 10 ^ Z.of_nat (String.length (String d b)) in
          Some (Q2Qc (Qmake (n * scale + f) (Z.to_pos scale)))
      | _, _ => None
      end
  | _ => None
  end.

Definition squared_error (sr hr : list num) : num :=
  sum (map (fun p => ((fst p - snd p) * (fst p - snd p))%Qc) (combine sr hr)).

(** Tensors are the channels of one pixel; every sub-module computes the
    squared error, and an adversarial one also keeps it as its [loss] and
    owns a scheduler. *)
#[local] Instance demo : Runtime := {|
  tensor := list num;
  state_blob := unit;
  py_float := decimal_float;
  construct := fun c =>
    match c with
    | Adversarial _ _ => inr (mkModule c (Some O) (Some (Q2Qc 0)))
    | _ => inr (mkModule c None None)
    end;
  call := fun m sr hr =>
    let v := squared_error sr hr in
    match made_by m with
    | Adversarial _ _ => inr (v, mkModule (made_by m) (scheduler m) (Some v))
    | _ => inr (v, m)
    end;
  conv2d := fun x k =>
    match x, k with
    | [r; g; b], [kr; kg; kb] => inr [(kr * r + kg * g + kb * b)%Qc]
    | _, _ => inl RuntimeError
    end;
  tensor_div := fun x c => map (fun v => (v / c)%Qc) x;
  load_state_dict := fun _ h _ => inr h
|}.

Definition demo_args (config : string) : Args.t :=
  Args.mk 1 false false 255 config 3 true 48 16 "single" ".".

Definition no_checkpoint : @Checkpoint demo := mkCheckpoint demo None None.

(** What an entry of [self.loss] shows: its kind, its weight, and whether
    it has a callable. *)
Definition shape (l : LossTerm) : string * Q * bool :=
  (type l, this (weight l), match function l with Some _ => true | None => false end).

(** The object a constructor call returned. *)
Definition built (r : exn + Loss) : Loss :=
  match r with
  | inr L => L
  | inl _ => mkLoss 0 [] (ModuleList []) false false (Q2Qc 0) None [] []
  end.

Definition demo_object (config : string) : Loss :=
  built (__init__ (demo_args config) no_checkpoint).

(** Intensity mode on one device, for a colour range. *)
Definition intensity_args (range : Z) : Args.t :=
  Args.mk 1 true false range "1*MSE" 3 true 48 16 "single" ".".

(** Two devices, no checkpoint. *)
Definition wrapped_args : Args.t :=
  Args.mk 2 false false 255 "1*GAN" 3 false 48 16 "single" ".".

(** A run resumed from a checkpoint. *)
Definition resumed_args (config : string) : Args.t :=
  Args.mk 1 false false 255 config 3 true 48 16 "single" "..".

(** A checkpoint whose log has one row of one column. *)
Definition narrow_checkpoint : @Checkpoint demo :=
  mkCheckpoint demo (Some tt) (Some [[Q2Qc 7]]).

(** Two devices, resumed from a checkpoint. *)
Definition resumed_wrapped_args : Args.t :=
  Args.mk 2 false false 255 "1*GAN" 3 false 48 16 "single" "..".

(** A checkpoint whose log has one row of four columns. *)
Definition one_row_checkpoint : @Checkpoint demo :=
  mkCheckpoint demo (Some tt) (Some [[Q2Qc 1; Q2Qc 1; Q2Qc 1; Q2Qc 2]]).

Definition demo_sr : @tensor demo := [Q2Qc 3; Q2Qc 1].
Definition demo_hr : @tensor demo := [Q2Qc 1; Q2Qc 1].

(** The object of ["1*MSE+0.5*L1"] with a row started. *)
Definition demo_started : Loss :=
  snd (start_log (demo_object "1*MSE+0.5*L1")).

Definition demo_readings : list reading * list Module :=
  match read_terms (RT := demo) (loss demo_started) demo_sr demo_hr
          (enumerate (loss demo_started)) (heap demo_started) with
  | inr x => x
  | inl _ => ([], [])
  end.

Definition demo_batch (L : Loss) : num * Loss :=
  match forward (RT := demo) demo_sr demo_hr L with
  | (inr s, L') => (s, L')
  | (inl _, L') => (Q2Qc 0, L')
  end.


Definition demo_log_row : list num := repeat (Q2Qc 0) 3.

(* ------------------------------------------------------------------ *)
(** ** The rest of the class, and more vocabulary *)

(** The entry [{'type': 'DIS', 'weight': 1, 'function': None}]. *)
Definition DIS : LossTerm := mkTerm "DIS" (Q2Qc 1) None.

(** What one round of the constructor's loop appends for the entry [l]. *)
Definition with_dis (l : LossTerm) : list LossTerm :=
  if 0 <=? find (type l) "GAN" then [l; DIS] else [l].

Section Parsing.

Context `{RT : Runtime}.

(** The entry [l] is what the term [weight*kind] stands for: its kind, the
    float of its weight, and a callable. *)
Definition parsed (term : string) (l : LossTerm) : Prop :=
  exists w kind r,
    split "*" term = [w; kind]
    /\ py_float w = Some (weight l)
    /\ type l = kind
    /\ function l = Some r.

(** The object [m] is what the constructor call for the kind of [term]
    returned. *)
Definition constructed (args : Args.t) (term : string) (m : Module) : Prop :=
  exists weight kind c,
    split "*" term = [weight; kind]
    /\ select args kind = Some c
    /\ construct c = inr m.

(** The kind of the term takes a branch of the [if]/[elif] chain. *)
Definition recognised (args : Args.t) (term : string) : Prop :=
  forall weight kind,
    split "*" term = [weight; kind] -> select args kind <> None.

End Parsing.

(** What [forward] returns or raises on a list of [n] entries, from the
    readings of the entries. *)
Definition returned (n : nat) (r : exn + list reading * list Module)
  : exn + num :=
  match r with
  | inl e => inl e
  | inr (rs, _) =>
      if (1 <? Z.of_nat n)
      then match reals rs with
           | [] => inl AttributeError
           | _ :: _ => inr (sum (reals rs))
           end
      else inr (sum (reals rs))
  end.

Section Sharing.

Context `{RT : Runtime}.

(** Along the entries with a callable, an entry whose kind takes no
    branch of the chain has the callable of the entry before it; [prev]
    is the callable before the first entry. *)
Fixpoint chained (args : Args.t) (prev : option nat) (reals : list LossTerm)
  : Prop :=
  match reals with
  | [] => True
  | l :: rest =>
      (select args (type l) = None -> function l = prev)
      /\ chained args (function l) rest
  end.

End Sharing.

(** The current row after a call of [forward] with the readings [rs] on
    a list of [n] entries. *)
Definition row_after (n : nat) (row : list num) (rs : list reading)
  : list num :=
  if (1 <? Z.of_nat n)
  then add_last (sum (reals rs)) (add_row row (map contribution rs))
  else add_row row (map contribution rs).

(** The rows before the current one. *)
Definition frozen (L : Loss) : list (list num) := removelast (log L).

Section Epochs.

Context `{RT : Runtime}.

(** The batches of an epoch, one call of [forward] each: the sums
    returned and [self] afterwards, when every call returns. *)
Fixpoint feed (batches : list (tensor * tensor)) (L : Loss)
  : option (list num * Loss) :=
  match batches with
  | [] => Some ([], L)
  | (sr, hr) :: rest =>
      match forward sr hr L with
      | (inr s, L1) =>
          match feed rest L1 with
          | Some (ss, L2) => Some (s :: ss, L2)
          | None => None
          end
      | (inl _, _) => None
      end
  end.

(** How many rows a sequence of operations starts. *)
Definition starts (ops : list op) : nat :=
  length (filter (fun o => match o with StartLog => true | _ => false end) ops).

(** The calls that change [self]. *)
Inductive method : Type :=
| CallForward (sr hr : tensor)
| CallStep
| CallStartLog
| CallEndLog (n_batches : Z)
| CallLoad (apath : Checkpoint) (cpu : bool).

(** [self] after a call, whether it raised or not. *)
Definition exec (c : method) (L : Loss) : Loss :=
  match c with
  | CallForward sr hr => snd (forward sr hr L)
  | CallStep => snd (step L)
  | CallStartLog => snd (start_log L)
  | CallEndLog n_batches => snd (end_log n_batches L)
  | CallLoad apath cpu => snd (load apath cpu L)
  end.

End Epochs.

(** ['{:.4f}'.format(x)]. *)
Class Formatting : Type := {
  format_4f : num -> string
}.

(** [self.state_dict()], from the sub-modules of [self]. *)
Class Serialising `{Runtime} : Type := {
  state_dict : list nat -> list Module -> state_blob
}.

Section Reporting.

Context `{RT : Runtime} `{FM : Formatting} `{SR : !Serialising}.

(** ['[{}: {:.4f}]'.format(l['type'], c / n_samples)]. *)
Definition piece (n_samples : Z) (l : LossTerm) (c : num) : string :=
  ("[" ++ type l ++ ": " ++ format_4f (c / num_of_Z n_samples)%Qc ++ "]")%string.

(** [display_loss(batch)]: [zip] stops at the shorter of the list and the
    row; indexing a log without rows raises. *)
Definition display_loss (batch : Z) : M string :=
  fun L =>
    let n_samples := batch + 1 in
    match py_get (log L) (-1) with
    | None => (inl IndexError, L)
    | Some row =>
        (inr (String.concat ""
                (map (fun p => piece n_samples (fst p) (snd p))
                     (combine (loss L) row))), L)
    end.

(** [save(apath)]: what the two calls of [torch.save] leave in the
    directory; writing is taken to succeed. *)
Definition save : M Checkpoint :=
  fun L =>
    (inr (mkCheckpoint RT
            (Some (state_dict (submodules (loss_module L)) (heap L)))
            (Some (log L))), L).

End Reporting.

(** The demonstration runtime prints every number alike and keeps no
    parameters. *)
#[local] Instance demo_format : Formatting := {|
  format_4f := fun _ => "0.0000"
|}.

#[local] Instance demo_serial : @Serialising demo := {|
  state_dict := fun _ _ => tt
|}.

(** One device named twice over on the CPU. *)
Definition cpu_two_devices_args : Args.t :=
  Args.mk 2 false false 255 "1*MSE" 3 true 48 16 "single" ".".


(** Three batches of an epoch. *)
Definition demo_epoch : list num * Loss :=
  match feed (RT := demo)
          [(demo_sr, demo_hr); (demo_sr, demo_hr); (demo_sr, demo_hr)]
          demo_started with
  | Some x => x
  | None => ([], demo_started)
  end.

(** The directory after [save] on the started object. *)
Definition demo_saved : @Checkpoint demo :=
  match fst (save (RT := demo) demo_started) with
  | inr c => c
  | inl _ => no_checkpoint
  end.

(* ------------------------------------------------------------------ *)
(** ** What the methods leave alone *)

Lemma alter_length {A : Type} (f : A -> A) (i : nat) (l : list A) :
  length (alter f i l) = length l.
Proof.
  revert i; induction l as [|x l IH]; intros [|i]; simpl; auto.
Qed.

Lemma alter_map_length {A : Type} (f : list A -> list A) (i : nat)
  (g : list (list A)) :
  (forall row, length (f row) = length row) ->
  map (@length A) (alter f i g) = map (@length A) g.
Proof.
  intros Hf; revert i; induction g as [|x g IH]; intros [|i]; simpl;
    rewrite ?Hf, ?IH; auto.
Qed.

Lemma keeps_ret {A B : Type} (f : Loss -> B) (a : A) : keeps f (ret a).
Proof. intros L; reflexivity. Qed.

Lemma keeps_raise {A B : Type} (f : Loss -> B) (e : exn) :
  keeps f (@raise A e).
Proof. intros L; reflexivity. Qed.

Lemma keeps_lift {A B : Type} (f : Loss -> B) (r : exn + A) :
  keeps f (lift r).
Proof. intros L; reflexivity. Qed.

Lemma keeps_gets {A B : Type} (f : Loss -> B) (g : Loss -> A) :
  keeps f (gets g).
Proof. intros L; reflexivity. Qed.

Lemma keeps_modify {B : Type} (f : Loss -> B) (g : Loss -> Loss) :
  (forall L, f (g L) = f L) -> keeps f (modify g).
Proof. intros Hg L; apply Hg. Qed.

Lemma keeps_bind {A B C : Type} (f : Loss -> C) (c : M A) (k : A -> M B) :
  keeps f c -> (forall a, keeps f (k a)) -> keeps f (bind c k).
Proof.
  intros Hc Hk L. unfold bind. specialize (Hc L).
  destruct (c L) as [[e|a] L1]; simpl in *; auto.
  rewrite Hk; auto.
Qed.

Lemma keeps_deref {B : Type} (f : Loss -> B) (r : nat) : keeps f (deref r).
Proof. intros L; unfold deref; destruct (nth_error (heap L) r); reflexivity. Qed.

Lemma keeps_store_config (r : nat) (m : Module) : keeps config (store r m).
Proof. apply keeps_modify; reflexivity. Qed.

Lemma keeps_store_shape (r : nat) (m : Module) : keeps log_shape (store r m).
Proof. apply keeps_modify; reflexivity. Qed.

Lemma keeps_log_iadd_config (r c : Z) (x : num) : keeps config (log_iadd r c x).
Proof.
  intros L; unfold log_iadd.
  destruct (py_index (length (log L)) r) as [ri|]; auto.
  destruct (nth_error (log L) ri) as [row|]; auto.
  destruct (py_index (length row) c); auto.
Qed.

Lemma keeps_log_iadd_shape (r c : Z) (x : num) :
  keeps log_shape (log_iadd r c x).
Proof.
  intros L; unfold log_iadd.
  destruct (py_index (length (log L)) r) as [ri|]; auto.
  destruct (nth_error (log L) ri) as [row|]; auto.
  destruct (py_index (length row) c) as [ci|]; auto.
  unfold log_shape; simpl. apply alter_map_length.
  intros; apply alter_length.
Qed.

Create HintDb frame.

#[local] Hint Resolve keeps_ret keeps_raise keeps_lift keeps_gets keeps_deref
  keeps_store_config keeps_store_shape keeps_log_iadd_config
  keeps_log_iadd_shape : frame.

(** Walks through a method, one bind and one branch at a time. *)
Ltac frame :=
  repeat first
    [ solve [auto with frame]
    | apply keeps_bind; [ | intros ]
    | apply keeps_modify; intros; reflexivity
    | match goal with
      | |- keeps _ (match ?x with _ => _ end) => destruct x
      end ].

Section Frames.

Context `{RT : Runtime}.

Lemma keeps_forward_term_config sr hr i l :
  keeps config (forward_term sr hr i l).
Proof. unfold forward_term; frame. Qed.

Lemma keeps_forward_term_shape sr hr i l :
  keeps log_shape (forward_term sr hr i l).
Proof. unfold forward_term; frame. Qed.

Lemma keeps_forward_loop_config sr hr entries losses :
  keeps config (forward_loop sr hr entries losses).
Proof.
  revert losses; induction entries as [|[i l] rest IH]; intros; simpl.
  - frame.
  - apply keeps_bind; [apply keeps_forward_term_config | intros; apply IH].
Qed.

Lemma keeps_forward_loop_shape sr hr entries losses :
  keeps log_shape (forward_loop sr hr entries losses).
Proof.
  revert losses; induction entries as [|[i l] rest IH]; intros; simpl.
  - frame.
  - apply keeps_bind; [apply keeps_forward_term_shape | intros; apply IH].
Qed.

Lemma keeps_forward_config sr hr : keeps config (forward sr hr).
Proof.
  unfold forward, project, rescale, accumulate; frame;
    apply keeps_forward_loop_config.
Qed.

Lemma keeps_forward_shape sr hr : keeps log_shape (forward sr hr).
Proof.
  unfold forward, project, rescale, accumulate; frame;
    apply keeps_forward_loop_shape.
Qed.

Lemma keeps_for_each {B : Type} (f : Loss -> B) body items :
  (forall r, keeps f (body r)) -> keeps f (for_each body items).
Proof.
  intros Hb; induction items as [|r rest IH]; simpl.
  - apply keeps_ret.
  - apply keeps_bind; auto.
Qed.

Lemma keeps_step_scheduler_config n r : keeps config (step_scheduler n r).
Proof. unfold step_scheduler; frame. Qed.

Lemma keeps_load_config apath cpu : keeps config (load apath cpu).
Proof.
  unfold load, iterate; frame;
    apply keeps_for_each; intros; apply keeps_step_scheduler_config.
Qed.

Lemma keeps_end_log_config n : keeps config (end_log n).
Proof.
  intros L; unfold end_log.
  destruct (py_index (length (log L)) (-1)); reflexivity.
Qed.

Lemma keeps_end_log_shape n : keeps log_shape (end_log n).
Proof.
  intros L; unfold end_log.
  destruct (py_index (length (log L)) (-1)); auto.
  unfold log_shape; simpl. apply alter_map_length.
  intros; apply length_map.
Qed.

Lemma keeps_start_log_config : keeps config start_log.
Proof.
  intros L; unfold start_log.
  destruct (forallb _ _); reflexivity.
Qed.

End Frames.

(* ------------------------------------------------------------------ *)
(** ** The constructor *)

Section Constructor.

Context `{RT : Runtime}.

(** What a constructed object is made of. *)
Lemma init_inv args ckp L :
  __init__ args ckp = inr L ->
  exists st,
    init_terms args (mkLocals [] [] None) (split "+" (Args.loss args)) = inr st
    /\ loss L = with_total (self_loss st)
    /\ init_intensity args = inr (intensity_conv L)
    /\ intensity_loss L = Args.intensity_loss args
    /\ normalize L = Args.normalized_loss args
    /\ rgb_range L = num_of_Z (Args.rgb_range args)
    /\ n_GPUs L = Args.n_GPUs args
    /\ loss_module L =
         (if negb (Args.cpu args) && (1 <? Args.n_GPUs args)
          then DataParallel (callables (loss L)) (Args.n_GPUs args)
          else ModuleList (callables (loss L))).
Proof.
  unfold __init__. intros H.
  destruct (init_intensity args) as [e|conv]; [discriminate|].
  destruct (init_terms _ _ _) as [e|st]; [discriminate|].
  exists st. simpl in H.
  match type of H with
  | (if _ then match load ?c ?b ?s with _ => _ end else _) = _ =>
      pose proof (keeps_load_config c b s) as K; set (self := s) in *
  end.
  assert (config L = config self) as E.
  { destruct (negb (Args.load args =? ".")%string).
    - destruct (load _ _ self) as [[e|u] L1]; [discriminate|].
      injection H as <-. exact K.
    - injection H as <-. reflexivity. }
  unfold config in E; subst self; simpl in E.
  injection E as -> -> -> -> -> -> ->.
  repeat split; reflexivity.
Qed.

End Constructor.

Section Configurations.

Context `{RT : Runtime}.

(** C6.  The configuration ["1*MSE+0.5*L1"] gives, in this order, an MSE
    term of weight 1 and an L1 term of weight 0.5, each with a callable,
    no DIS entry, and one Total entry of weight 0 without a callable. *)
Theorem mse_l1_entries (args : Args.t) (ckp : Checkpoint) (L : Loss) :
  Args.loss args = "1*MSE+0.5*L1" ->
  option_map this (py_float "1") = Some 1%Q ->
  option_map this (py_float "0.5") = Some (1 # 2)%Q ->
  __init__ args ckp = inr L ->
  map shape (loss L) =
    [("MSE", 1%Q, true); ("L1", (1 # 2)%Q, true); ("Total", 0%Q, false)].
Proof.
  intros Hcfg H1 H05 HL.
  destruct (init_inv _ _ _ HL) as (st & Hst & Hloss & _).
  rewrite Hcfg in Hst. cbn in Hst.
  destruct (construct MSELoss) as [e|m1]; [discriminate|]. cbn in Hst.
  destruct (py_float "1") as [w1|]; [|discriminate]. cbn in Hst.
  destruct (construct L1Loss) as [e|m2]; [discriminate|]. cbn in Hst.
  destruct (py_float "0.5") as [w2|]; [|discriminate]. cbn in Hst.
  injection Hst as <-. rewrite Hloss.
  injection H1 as H1. injection H05 as H05.
  unfold with_total, shape; simpl. rewrite H1, H05. reflexivity.
Qed.

(** C1, as the code has it.  The configuration ["1*GAN"] gives three
    entries: the adversarial term of weight 1, the DIS entry of weight 1
    without a callable, and, the list having two entries by then, a Total
    entry of weight 0 without a callable. *)
Theorem gan_alone_entries (args : Args.t) (ckp : Checkpoint) (L : Loss) :
  Args.loss args = "1*GAN" ->
  option_map this (py_float "1") = Some 1%Q ->
  __init__ args ckp = inr L ->
  map shape (loss L) =
    [("GAN", 1%Q, true); ("DIS", 1%Q, false); ("Total", 0%Q, false)].
Proof.
  intros Hcfg H1 HL.
  destruct (init_inv _ _ _ HL) as (st & Hst & Hloss & _).
  rewrite Hcfg in Hst. cbn in Hst.
  destruct (construct (Adversarial args "GAN")) as [e|m]; [discriminate|].
  cbn in Hst.
  destruct (py_float "1") as [w1|]; [|discriminate]. cbn in Hst.
  injection Hst as <-. rewrite Hloss.
  injection H1 as H1.
  unfold with_total, shape; simpl. rewrite H1. reflexivity.
Qed.

(** C2, at a configuration whose second kind is not recognised.  The
    constructor succeeds: no branch of the chain assigns [loss_function],
    which still holds the callable of the first term, and the entry "Foo"
    is appended with that same object. *)
Theorem later_unknown_kind_is_accepted (args : Args.t) (ckp : Checkpoint)
  (w : num) (m : Module) :
  Args.loss args = "1*MSE+1*Foo" ->
  Args.intensity_loss args = false ->
  Args.load args = "." ->
  py_float "1" = Some w ->
  construct MSELoss = inr m ->
  exists L,
    __init__ args ckp = inr L
    /\ loss L = [mkTerm "MSE" w (Some 0%nat); mkTerm "Foo" w (Some 0%nat); Total]
    /\ heap L = [m].
Proof.
  intros Hcfg Hint Hload Hw Hm.
  unfold __init__, init_intensity. rewrite Hint, Hcfg, Hload. cbn.
  rewrite Hm. cbn. rewrite Hw. cbn.
  eexists; repeat split.
Qed.

(** X4.  A kind that is not recognised in the first term does stop the
    constructor: [loss_function] is not bound yet. *)
Lemma first_unknown_kind_fails (args : Args.t) (ckp : Checkpoint)
  (term weight kind : string) (rest : list string) :
  split "+" (Args.loss args) = term :: rest ->
  split "*" term = [weight; kind] ->
  select args kind = None ->
  exists e, __init__ args ckp = inl e.
Proof.
  intros Hterms Hterm Hsel. unfold __init__.
  destruct (init_intensity args) as [e|conv]; [eexists; reflexivity|].
  rewrite Hterms. simpl. unfold init_term. rewrite Hterm, Hsel. simpl.
  destruct (py_float weight); simpl; eexists; reflexivity.
Qed.

(** *** Malformed terms *)

Lemma split_without_sep (sep : ascii) (s : string) :
  ~ In sep (list_ascii_of_string s) -> split sep s = [s].
Proof.
  induction s as [|c s IH]; simpl; intros Hn; [reflexivity|].
  destruct (Ascii.eqb_spec c sep) as [->|_].
  - exfalso; apply Hn; left; reflexivity.
  - rewrite IH; [reflexivity|]. intros Hin; apply Hn; right; exact Hin.
Qed.

Lemma init_term_malformed (args : Args.t) (st : locals) (term : string) :
  lacks_star term \/ py_float (weight_field term) = None ->
  exists e, init_term args st term = inl e.
Proof.
  unfold init_term, weight_field. intros [Hstar|Hw].
  - rewrite (split_without_sep _ _ Hstar). eexists; reflexivity.
  - destruct (split "*" term) as [|weight [|loss_type [|x rest]]];
      try (eexists; reflexivity).
    simpl in Hw. rewrite Hw.
    destruct (select args loss_type) as [c|]; simpl;
      [destruct (construct c); simpl|]; eexists; reflexivity.
Qed.

Lemma init_terms_malformed (args : Args.t) (terms : list string)
  (term : string) :
  In term terms ->
  lacks_star term \/ py_float (weight_field term) = None ->
  forall st, exists e, init_terms args st terms = inl e.
Proof.
  intros Hin Hbad. induction terms as [|t rest IH]; [destruct Hin|].
  intros st. simpl.
  destruct Hin as [->|Hin].
  - destruct (init_term_malformed args st term Hbad) as [e ->].
    eexists; reflexivity.
  - destruct (init_term args st t) as [e|st']; simpl;
      [eexists; reflexivity | apply IH; exact Hin].
Qed.

(** C7.  When a term of the configuration has no ['*'], or the field
    before its ['*'] is not read by [float], the constructor raises; no
    weight is made up and no term is skipped. *)
Theorem malformed_term_fails (args : Args.t) (ckp : Checkpoint)
  (term : string) :
  In term (split "+" (Args.loss args)) ->
  lacks_star term \/ py_float (weight_field term) = None ->
  exists e, __init__ args ckp = inl e.
Proof.
  intros Hin Hbad. unfold __init__.
  destruct (init_intensity args) as [e|conv]; [eexists; reflexivity|].
  destruct (init_terms_malformed args _ term Hin Hbad (mkLocals [] [] None))
    as [e ->].
  eexists; reflexivity.
Qed.

(** *** The intensity projection *)

(** C3, as the code has it.  In intensity mode the range 1 makes the
    constructor raise [NotImplementedError]; with the range 255 the object
    holds the kernel 0.299, 0.587, 0.114, and [forward] passes both [sr]
    and [hr] through [conv2d] with that kernel before anything else. *)
Theorem intensity_mode (args : Args.t) (ckp : Checkpoint) :
  Args.intensity_loss args = true ->
  (Args.rgb_range args = 1 -> __init__ args ckp = inl NotImplementedError)
  /\ (Args.rgb_range args = 255 ->
      forall L, __init__ args ckp = inr L ->
        intensity_conv L = Some luma
        /\ forall S sr hr sr' hr',
             config S = config L ->
             conv2d sr luma = inr sr' ->
             conv2d hr luma = inr hr' ->
             forward sr hr S =
               (' (sr, hr) <- rescale sr' hr' ;; accumulate sr hr) S).
Proof.
  intros Hint; split; intros Hrange.
  - unfold __init__, init_intensity. rewrite Hint, Hrange. reflexivity.
  - intros L HL.
    destruct (init_inv _ _ _ HL) as (st & _ & _ & Hconv & Hflag & _).
    unfold init_intensity in Hconv. rewrite Hint, Hrange in Hconv.
    simpl in Hconv. injection Hconv as Hconv. rewrite Hint in Hflag.
    split; [symmetry; exact Hconv|].
    intros S sr hr sr' hr' HS Hsr Hhr.
    unfold config in HS. injection HS as _ _ _ Hf _ _ Hk.
    unfold forward, project, bind at 1 2, gets.
    rewrite Hf, Hflag. unfold bind at 1, gets. rewrite Hk, <- Hconv.
    unfold bind at 1 2 3, lift, ret. rewrite Hsr, Hhr. reflexivity.
Qed.

End Configurations.

(* ------------------------------------------------------------------ *)
(** ** Indexing the log *)

Lemma py_index_last (n : nat) : py_index (S n) (-1) = Some n.
Proof.
  unfold py_index.
  replace ((0 <=? -1) && (-1 <? Z.of_nat (S n))) with false by reflexivity.
  replace ((-1 <? 0) && (0 <=? Z.of_nat (S n) + -1)) with true.
  - f_equal; lia.
  - symmetry; apply andb_true_iff; split; [reflexivity | apply Z.leb_le; lia].
Qed.

Lemma py_index_last_empty : py_index 0 (-1) = None.
Proof. reflexivity. Qed.

Lemma py_index_nat (len i : nat) :
  (i < len)%nat -> py_index len (Z.of_nat i) = Some i.
Proof.
  intros Hi. unfold py_index.
  replace ((0 <=? Z.of_nat i) && (Z.of_nat i <? Z.of_nat len)) with true.
  - f_equal; lia.
  - symmetry; apply andb_true_iff; split;
      [apply Z.leb_le | apply Z.ltb_lt]; lia.
Qed.

Lemma nth_error_middle {A : Type} (l1 l2 : list A) (x : A) :
  nth_error (l1 ++ x :: l2) (length l1) = Some x.
Proof. induction l1 as [|y l1 IH]; simpl; auto. Qed.

Lemma alter_middle {A : Type} (f : A -> A) (l1 l2 : list A) (x : A) :
  alter f (length l1) (l1 ++ x :: l2) = l1 ++ f x :: l2.
Proof. induction l1 as [|y l1 IH]; simpl; [|rewrite IH]; reflexivity. Qed.

Lemma set_heap_same (L : Loss) : set_heap (heap L) L = L.
Proof. destruct L; reflexivity. Qed.

Lemma set_log_same (L : Loss) : set_log (log L) L = L.
Proof. destruct L; reflexivity. Qed.

(** [self.log[-1, i] += e] on the column after [done]. *)
Lemma log_iadd_column (L : Loss) (rows : list (list num))
  (done rest : list num) (x e : num) :
  log L = rows ++ [done ++ x :: rest] ->
  log_iadd (-1) (Z.of_nat (length done)) e L =
    (inr tt, set_log (rows ++ [done ++ (x + e)%Qc :: rest]) L).
Proof.
  intros Hlog. unfold log_iadd. rewrite Hlog.
  rewrite length_app, Nat.add_1_r, py_index_last, nth_error_middle.
  rewrite py_index_nat by (rewrite length_app; simpl; lia).
  rewrite alter_middle, alter_middle. reflexivity.
Qed.

(** [self.log[-1, -1] += e]. *)
Lemma log_iadd_last_column (L : Loss) (rows : list (list num))
  (front : list num) (x e : num) :
  log L = rows ++ [front ++ [x]] ->
  log_iadd (-1) (-1) e L =
    (inr tt, set_log (rows ++ [front ++ [(x + e)%Qc]]) L).
Proof.
  intros Hlog. unfold log_iadd. rewrite Hlog.
  rewrite length_app, Nat.add_1_r, py_index_last, nth_error_middle.
  rewrite length_app, Nat.add_1_r, py_index_last.
  rewrite alter_middle, alter_middle. reflexivity.
Qed.

Lemma add_row_length (row cs : list num) :
  length (add_row row cs) = length row.
Proof.
  revert cs; induction row as [|x row IH]; intros [|c cs]; simpl; auto.
Qed.

Section ForwardLoop.

Context `{RT : Runtime}.

(** The projection and the normalisation read [self] and leave it as it
    is. *)
Lemma prepared_run (L : Loss) (sr hr : tensor) :
  (' (sr, hr) <- project sr hr ;; rescale sr hr) L = (prepared L sr hr, L).
Proof.
  unfold prepared, project, rescale, bind, gets, lift, ret, raise.
  destruct (intensity_loss L); simpl.
  - destruct (intensity_conv L) as [k|]; simpl; [|reflexivity].
    destruct (conv2d sr k); simpl; [reflexivity|].
    destruct (conv2d hr k); simpl; [reflexivity|].
    destruct (normalize L); reflexivity.
  - destruct (normalize L); reflexivity.
Qed.

(** A round of the loop is the reading of its entry, then the update of
    the entry's column. *)
Lemma forward_term_reading (sr hr : tensor) (i : nat) (l : LossTerm)
  (L : Loss) :
  forward_term sr hr i l L =
    match read_term (loss L) sr hr i l (heap L) with
    | inl e => (inl e, L)
    | inr (Real e, h') =>
        (log_iadd (-1) (Z.of_nat i) e ;; ret (Some e)) (set_heap h' L)
    | inr (Readout d, _) => (log_iadd (-1) (Z.of_nat i) d ;; ret None) L
    | inr (Nothing, _) => (inr None, L)
    end.
Proof.
  unfold forward_term, read_term.
  destruct (function l) as [r|].
  - unfold bind at 1, deref.
    destruct (nth_error (heap L) r) as [m|]; [|reflexivity].
    unfold bind at 1, lift.
    destruct (call m sr hr) as [e|[v m']]; reflexivity.
  - destruct (type l =? "DIS")%string; [|reflexivity].
    unfold bind at 1, gets.
    destruct (py_get (loss L) (Z.of_nat i - 1)) as [p|]; [|reflexivity].
    destruct (function p) as [r|]; [|reflexivity].
    unfold bind at 1, deref.
    destruct (nth_error (heap L) r) as [m|]; [|reflexivity].
    destruct (loss_attr m); reflexivity.
Qed.

Lemma read_term_silent (ls : list LossTerm) (sr hr : tensor) (i : nat)
  (l : LossTerm) (h h' : list Module) (r : reading) :
  read_term ls sr hr i l h = inr (r, h') ->
  (forall e, r <> Real e) -> h' = h.
Proof.
  unfold read_term. intros H Hr.
  destruct (function l) as [f|].
  - destruct (nth_error h f) as [m|]; [|discriminate].
    destruct (call m sr hr) as [e|[v m']]; [discriminate|].
    injection H as <- _. destruct (Hr _ eq_refl).
  - destruct (type l =? "DIS")%string; [|congruence].
    destruct (py_get ls (Z.of_nat i - 1)) as [p|]; [|discriminate].
    destruct (function p) as [f|]; [|discriminate].
    destruct (nth_error h f) as [m|]; [|discriminate].
    destruct (loss_attr m); [congruence|discriminate].
Qed.

Lemma forward_loop_cons (sr hr : tensor) (i : nat) (l : LossTerm)
  (rest : list (nat * LossTerm)) (losses : list num) (L : Loss) :
  forward_loop sr hr ((i, l) :: rest) losses L =
    match forward_term sr hr i l L with
    | (inl e, L') => (inl e, L')
    | (inr o, L') =>
        forward_loop sr hr rest
          (match o with Some e => losses ++ [e] | None => losses end) L'
    end.
Proof. reflexivity. Qed.

(** The loop of [forward] over the entries from column [length done] on:
    it raises when a reading does; otherwise it appends the real readings
    to [losses], leaves the objects as the readings do, and adds each
    reading to its column of the last row. *)
Lemma forward_loop_readings (sr hr : tensor) (ls : list LossTerm)
  (rows : list (list num)) (es : list LossTerm) :
  forall (done todo losses : list num) (L : Loss),
    loss L = ls ->
    log L = rows ++ [done ++ todo] ->
    length todo = length es ->
    match read_terms ls sr hr (enumerate_from (length done) es) (heap L) with
    | inl e =>
        fst (forward_loop sr hr (enumerate_from (length done) es) losses L)
        = inl e
    | inr (rs, h') =>
        forward_loop sr hr (enumerate_from (length done) es) losses L =
          (inr (losses ++ reals rs),
           set_heap h'
             (set_log (rows ++ [done ++ add_row todo (map contribution rs)]) L))
    end.
Proof.
  induction es as [|l es IH]; intros done todo losses L Hls Hlog Hlen.
  - destruct todo; [|discriminate]. simpl.
    rewrite app_nil_r, <- Hlog, set_log_same, set_heap_same. reflexivity.
  - destruct todo as [|x todo]; [discriminate|].
    injection Hlen as Hlen.
    cbn [enumerate_from read_terms]. rewrite !forward_loop_cons.
    rewrite forward_term_reading, Hls.
    destruct (read_term ls sr hr (length done) l (heap L))
      as [e|[r h1]] eqn:Hr; cbn [ebind]; [reflexivity|].
    assert (Hdone : forall y : num, length (done ++ [y]) = S (length done))
      by (intros; rewrite length_app; simpl; lia).
    destruct r as [e|d|].
    + unfold bind.
      rewrite (log_iadd_column (set_heap h1 L) rows done todo x e Hlog).
      unfold ret.
      specialize (IH (done ++ [(x + e)%Qc]) todo (losses ++ [e])
                     (set_log (rows ++ [done ++ (x + e)%Qc :: todo])
                              (set_heap h1 L))).
      rewrite Hdone in IH. cbn [loss log heap set_log set_heap] in IH.
      rewrite <- app_assoc in IH. specialize (IH Hls eq_refl Hlen).
      destruct (read_terms ls sr hr _ h1) as [e'|[rs h2]]; cbn [ebind];
        [exact IH|].
      rewrite IH, <- !app_assoc. reflexivity.
    + unfold bind.
      rewrite (log_iadd_column L rows done todo x d Hlog).
      unfold ret.
      assert (h1 = heap L) as ->
        by (eapply read_term_silent; [exact Hr | discriminate]).
      specialize (IH (done ++ [(x + d)%Qc]) todo losses
                     (set_log (rows ++ [done ++ (x + d)%Qc :: todo]) L)).
      rewrite Hdone in IH. cbn [loss log heap set_log set_heap] in IH.
      rewrite <- app_assoc in IH. specialize (IH Hls eq_refl Hlen).
      destruct (read_terms ls sr hr _ (heap L)) as [e'|[rs h2]]; cbn [ebind];
        [exact IH|].
      rewrite IH, <- !app_assoc. reflexivity.
    + assert (h1 = heap L) as ->
        by (eapply read_term_silent; [exact Hr | discriminate]).
      specialize (IH (done ++ [x]) todo losses L).
      rewrite Hdone in IH.
      rewrite <- app_assoc in IH. specialize (IH Hls Hlog Hlen).
      destruct (read_terms ls sr hr _ (heap L)) as [e'|[rs h2]]; cbn [ebind];
        [exact IH|].
      rewrite IH, <- !app_assoc. cbn [map contribution add_row app].
      rewrite Qcplus_0_r. reflexivity.
Qed.
End ForwardLoop.

Lemma split_not_nil (sep : ascii) (s : string) : split sep s <> [].
Proof.
  destruct s as [|c s]; simpl; [discriminate|].
  destruct (Ascii.eqb c sep); [discriminate|].
  destruct (split sep s); discriminate.
Qed.

Lemma headed_app (ls more : list LossTerm) : headed ls -> headed (ls ++ more).
Proof.
  intros (l & rest & r & -> & Hr). exists l, (rest ++ more), r. auto.
Qed.

Lemma add_row_app (r1 r2 c1 c2 : list num) :
  length r1 = length c1 ->
  add_row (r1 ++ r2) (c1 ++ c2) = add_row r1 c1 ++ add_row r2 c2.
Proof.
  revert c1; induction r1 as [|x r1 IH]; intros [|c c1] H; try discriminate.
  - reflexivity.
  - simpl. rewrite IH; [reflexivity | injection H; auto].
Qed.

Lemma add_last_snoc (s x : num) (front : list num) :
  add_last s (front ++ [x]) = front ++ [(x + s)%Qc].
Proof.
  unfold add_last. rewrite length_app, Nat.add_1_r.
  replace (S (length front) - 1)%nat with (length front) by lia.
  exact (alter_middle (fun v => (v + s)%Qc) front [] x).
Qed.

Section Forward.

Context `{RT : Runtime}.

(** A term the loop accepts puts an entry with a callable at the end of
    the list, and a DIS entry after it for an adversarial kind. *)
Lemma init_term_appends (args : Args.t) (st st' : locals) (term : string) :
  init_term args st term = inr st' ->
  exists l r more,
    self_loss st' = self_loss st ++ l :: more /\ function l = Some r.
Proof.
  unfold init_term. intros H.
  destruct (split "*" term) as [|weight [|loss_type [|x rest]]];
    try discriminate.
  destruct (match select args loss_type with
            | Some c => _ | None => _ end) as [e|[h f]];
    [discriminate|]. cbn [ebind] in H.
  destruct (py_float weight) as [w|]; [|discriminate]. cbn [ebind] in H.
  destruct f as [r|]; [|discriminate]. cbn [ebind] in H.
  injection H as <-. cbn [self_loss].
  destruct (0 <=? find loss_type "GAN").
  - exists (mkTerm loss_type w (Some r)), r, [mkTerm "DIS" (Q2Qc 1) None].
    rewrite <- app_assoc. split; reflexivity.
  - exists (mkTerm loss_type w (Some r)), r, []. split; reflexivity.
Qed.

Lemma init_terms_headed (args : Args.t) (terms : list string) :
  forall st st',
    init_terms args st terms = inr st' ->
    headed (self_loss st) -> headed (self_loss st').
Proof.
  induction terms as [|t rest IH]; intros st st' H Hh; simpl in H.
  - injection H as <-. exact Hh.
  - destruct (init_term args st t) as [e|st1] eqn:Ht; [discriminate|].
    cbn [ebind] in H. apply (IH _ _ H).
    destruct (init_term_appends _ _ _ _ Ht) as (l & r & more & -> & _).
    apply headed_app, Hh.
Qed.

(** The list of a constructed object: its first entry has a callable, and
    when there is more than one entry the last is the Total entry. *)
Lemma init_loss_list (args : Args.t) (ckp : Checkpoint) (L : Loss) :
  __init__ args ckp = inr L ->
  headed (loss L)
  /\ ((1 < length (loss L))%nat -> exists ls, loss L = ls ++ [Total]).
Proof.
  intros HL. destruct (init_inv _ _ _ HL) as (st & Hst & -> & _).
  split.
  - assert (headed (self_loss st)) as Hh.
    { destruct (split "+" (Args.loss args)) as [|t rest] eqn:Hs;
        [destruct (split_not_nil _ _ Hs)|].
      simpl in Hst.
      destruct (init_term args _ t) as [e|st1] eqn:Ht; [discriminate|].
      cbn [ebind] in Hst. apply (init_terms_headed _ _ _ _ Hst).
      destruct (init_term_appends _ _ _ _ Ht) as (l & r & more & -> & Hr).
      exists l, more, r. split; [reflexivity | exact Hr]. }
    unfold with_total. destruct (1 <? _); [apply headed_app|]; exact Hh.
  - unfold with_total. destruct (1 <? _) eqn:Hn; intros Hlen.
    + eexists; reflexivity.
    + apply Z.ltb_ge in Hn. lia.
Qed.

Lemma read_term_reading_of (ls : list LossTerm) (sr hr : tensor) (i : nat)
  (l : LossTerm) (h h' : list Module) (r : reading) :
  read_term ls sr hr i l h = inr (r, h') -> reading_of sr hr l r.
Proof.
  unfold read_term, reading_of. intros H.
  destruct (function l) as [f|].
  - destruct (nth_error h f) as [m|]; [|discriminate].
    destruct (call m sr hr) as [e|[v m']] eqn:Hc; [discriminate|].
    injection H as <- _. exists m, v, m'. auto.
  - destruct (type l =? "DIS")%string; [|congruence].
    destruct (py_get ls (Z.of_nat i - 1)) as [p|]; [|discriminate].
    destruct (function p) as [f|]; [|discriminate].
    destruct (nth_error h f) as [m|]; [|discriminate].
    destruct (loss_attr m) as [d|]; [|discriminate].
    injection H as <- _. eexists; reflexivity.
Qed.

Lemma read_terms_reading_of (ls : list LossTerm) (sr hr : tensor)
  (es : list LossTerm) :
  forall i h rs h',
    read_terms ls sr hr (enumerate_from i es) h = inr (rs, h') ->
    Forall2 (reading_of sr hr) es rs.
Proof.
  induction es as [|l es IH]; intros i h rs h' H; simpl in H.
  - injection H as <- _. constructor.
  - destruct (read_term ls sr hr i l h) as [e|[r h1]] eqn:Hr; [discriminate|].
    cbn [ebind] in H.
    destruct (read_terms ls sr hr _ h1) as [e|[rs1 h2]] eqn:Hrs;
      [discriminate|]. cbn [ebind] in H.
    injection H as <- _. constructor.
    + eapply read_term_reading_of; exact Hr.
    + eapply IH; exact Hrs.
Qed.

Lemma log_iadd_last (L : Loss) (rows : list (list num)) (row : list num)
  (s : num) :
  log L = rows ++ [row] -> row <> [] ->
  log_iadd (-1) (-1) s L = (inr tt, set_log (rows ++ [add_last s row]) L).
Proof.
  intros Hlog Hrow.
  destruct (exists_last Hrow) as (front & x & ->).
  rewrite add_last_snoc. apply log_iadd_last_column, Hlog.
Qed.

(** The loop and the Total column, from the readings. *)
Lemma accumulate_readings (sr hr : tensor) (L : Loss)
  (rows : list (list num)) (row : list num) (rs : list reading)
  (h' : list Module) :
  log L = rows ++ [row] ->
  length row = length (loss L) ->
  read_terms (loss L) sr hr (enumerate (loss L)) (heap L) = inr (rs, h') ->
  reals rs <> [] ->
  accumulate sr hr L =
    (inr (sum (reals rs)),
     set_heap h'
       (set_log
          (rows ++ [if (1 <? Z.of_nat (length (loss L)))
                    then add_last (sum (reals rs))
                                  (add_row row (map contribution rs))
                    else add_row row (map contribution rs)]) L)).
Proof.
  intros Hlog Hlen Hrs Hreal.
  pose proof (forward_loop_readings sr hr (loss L) rows (loss L)
                [] row [] L eq_refl Hlog Hlen) as Hloop.
  cbn [length app] in Hloop. unfold enumerate in Hrs. rewrite Hrs in Hloop.
  unfold accumulate. unfold bind at 1, gets. unfold bind at 1.
  unfold enumerate. rewrite Hloop. cbn [app].
  destruct (1 <? Z.of_nat (length (loss L))) eqn:Hn.
  - destruct (reals rs) as [|e es] eqn:He; [destruct (Hreal eq_refl)|].
    rewrite <- He. unfold bind at 1.
    erewrite log_iadd_last; [reflexivity | reflexivity |].
    intros Hnil. apply (f_equal (@length num)) in Hnil.
    rewrite add_row_length, Hlen in Hnil. simpl in Hnil.
    apply Z.ltb_lt in Hn. lia.
  - reflexivity.
Qed.

Lemma forward_prepared (L : Loss) (sr hr : tensor) :
  forward sr hr L =
    match prepared L sr hr with
    | inl e => (inl e, L)
    | inr (sr', hr') => accumulate sr' hr' L
    end.
Proof.
  unfold forward, prepared, project, rescale, bind, gets, lift, ret, raise.
  destruct (intensity_loss L); simpl.
  - destruct (intensity_conv L) as [k|]; simpl; [|reflexivity].
    destruct (conv2d sr k); simpl; [reflexivity|].
    destruct (conv2d hr k); simpl; [reflexivity|].
    destruct (normalize L); reflexivity.
  - destruct (normalize L); reflexivity.
Qed.

Lemma headed_reals (sr hr : tensor) (ls : list LossTerm) (rs : list reading) :
  headed ls -> Forall2 (reading_of sr hr) ls rs -> reals rs <> [].
Proof.
  intros (l & rest & r & -> & Hr) H. inversion H as [|? r0 ? rs0 H0 _]; subst.
  unfold reading_of in H0. rewrite Hr in H0.
  destruct H0 as (m & v & m' & _ & ->). discriminate.
Qed.

(** [forward] from the readings, on an object whose first entry has a
    callable and whose last entry, when there are several, is the Total
    entry. *)
Lemma forward_on_readings (L : Loss) (sr hr sr' hr' : tensor)
  (rows : list (list num)) (row : list num) (rs : list reading)
  (h' : list Module) :
  headed (loss L) ->
  ((1 < length (loss L))%nat -> exists ls, loss L = ls ++ [Total]) ->
  log L = rows ++ [row] ->
  length row = length (loss L) ->
  prepared L sr hr = inr (sr', hr') ->
  read_terms (loss L) sr' hr' (enumerate (loss L)) (heap L) = inr (rs, h') ->
  Forall2 (reading_of sr' hr') (loss L) rs
  /\ exists L',
       forward sr hr L = (inr (sum (reals rs)), L')
       /\ ((1 < length (loss L))%nat ->
           exists ls front x front',
             loss L = ls ++ [Total]
             /\ row = front ++ [x]
             /\ log L' = rows ++ [front' ++ [(x + sum (reals rs))%Qc]]
             /\ length front' = length front).
Proof.
  intros Hhead Htotal Hlog Hlen Hprep Hrs.
  pose proof (read_terms_reading_of _ _ _ _ _ _ _ _ Hrs) as Hof.
  split; [exact Hof|].
  pose proof (headed_reals _ _ _ _ Hhead Hof) as Hreal.
  eexists. split.
  - rewrite forward_prepared, Hprep.
    apply accumulate_readings; eassumption.
  - intros Hn. destruct (Htotal Hn) as [ls Hls].
    assert (row <> []) as Hrow by (intros ->; simpl in Hlen; lia).
    destruct (exists_last Hrow) as (front & x & ->).
    rewrite Hls in Hof.
    apply Forall2_app_inv_l in Hof as (rs1 & rs2 & Hof1 & Hof2 & ->).
    inversion Hof2 as [|? r ? rs3 Hr Hnil]; subst. inversion Hnil; subst.
    unfold reading_of in Hr. cbn in Hr. subst r.
    exists ls, front, x, (add_row front (map contribution rs1)).
    split; [exact Hls|]. split; [reflexivity|].
    split; [|apply add_row_length].
    cbn [log set_heap set_log].
    replace (1 <? Z.of_nat (length (loss L))) with true
      by (symmetry; apply Z.ltb_lt; lia).
    rewrite map_app, add_row_app.
    + cbn [map contribution add_row]. rewrite add_last_snoc, Qcplus_0_r.
      reflexivity.
    + rewrite length_map. apply Forall2_length in Hof1.
      rewrite Hls, !length_app in Hlen. simpl in Hlen. lia.
Qed.

(** A later state of a constructed object has the list the constructor
    built. *)
Lemma later_loss_list (args : Args.t) (ckp : Checkpoint) (L0 L : Loss) :
  __init__ args ckp = inr L0 ->
  config L = config L0 ->
  headed (loss L)
  /\ ((1 < length (loss L))%nat -> exists ls, loss L = ls ++ [Total]).
Proof.
  intros H0 Hcfg.
  assert (Hloss : loss L = loss L0)
    by (unfold config in Hcfg; congruence).
  rewrite Hloss. apply (init_loss_list _ _ _ H0).
Qed.

(** C4.  On a constructed object, in whatever state later calls left it,
    with a current log row of the right width: when the inputs can be
    prepared and every entry read, [forward] returns the sum of the real
    readings, which are the weight times the callable's value for exactly
    the entries that have a callable; and when the list has more than one
    entry, this sum is added to the last column, the one of the Total
    entry. *)
Theorem forward_weighted_sum (args : Args.t) (ckp : Checkpoint)
  (L0 L : Loss) (sr hr sr' hr' : tensor) (rows : list (list num))
  (row : list num) (rs : list reading) (h' : list Module) :
  __init__ args ckp = inr L0 ->
  config L = config L0 ->
  log L = rows ++ [row] ->
  length row = length (loss L) ->
  prepared L sr hr = inr (sr', hr') ->
  read_terms (loss L) sr' hr' (enumerate (loss L)) (heap L) = inr (rs, h') ->
  Forall2 (reading_of sr' hr') (loss L) rs
  /\ exists L',
       forward sr hr L = (inr (sum (reals rs)), L')
       /\ ((1 < length (loss L))%nat ->
           exists ls front x front',
             loss L = ls ++ [Total]
             /\ row = front ++ [x]
             /\ log L' = rows ++ [front' ++ [(x + sum (reals rs))%Qc]]
             /\ length front' = length front).
Proof.
  intros H0 Hcfg.
  destruct (later_loss_list _ _ _ _ H0 Hcfg) as [Hhead Htotal].
  apply forward_on_readings; assumption.
Qed.

End Forward.

(* ------------------------------------------------------------------ *)
(** ** The log over an epoch *)

Lemma log_ok_shape (L : Loss) :
  log_ok L <-> Forall (fun w => w = length (loss L)) (log_shape L).
Proof. unfold log_ok, log_shape. rewrite Forall_map. reflexivity. Qed.

Lemma log_ok_forallb (L : Loss) :
  log_ok L ->
  forallb (fun row : list num => Nat.eqb (length row) (length (loss L))) (log L)
  = true.
Proof.
  unfold log_ok. intros H. apply forallb_forall. intros row Hin.
  rewrite Forall_forall in H. apply Nat.eqb_eq, H, Hin.
Qed.

Lemma forallb_log_ok (L : Loss) :
  forallb (fun row : list num => Nat.eqb (length row) (length (loss L))) (log L)
  = true -> log_ok L.
Proof.
  unfold log_ok. intros H. apply Forall_forall. intros row Hin.
  rewrite forallb_forall in H. apply Nat.eqb_eq, H, Hin.
Qed.

Section Epoch.

Context `{RT : Runtime}.

Lemma end_log_rows (n_batches : Z) (L : Loss) (rows : list (list num))
  (row : list num) :
  log L = rows ++ [row] ->
  end_log n_batches L =
    (inr tt,
     set_log (rows ++ [map (fun v => (v / num_of_Z n_batches)%Qc) row]) L).
Proof.
  unfold end_log. intros ->.
  rewrite length_app, Nat.add_1_r, py_index_last.
  rewrite (alter_middle _ rows [] row). reflexivity.
Qed.

(** C10.  [end_log] raises on a log without rows and changes nothing;
    otherwise it divides the last row by [n_batches], and the rows before
    it and the number of rows stay as they were. *)
Theorem end_log_last_row_only (n_batches : Z) (L : Loss) :
  (log L = [] -> end_log n_batches L = (inl IndexError, L))
  /\ (forall rows row,
        log L = rows ++ [row] ->
        end_log n_batches L =
          (inr tt,
           set_log
             (rows ++ [map (fun v => (v / num_of_Z n_batches)%Qc) row]) L)).
Proof.
  split.
  - unfold end_log. intros ->. reflexivity.
  - intros rows row. apply end_log_rows.
Qed.

Lemma start_log_ok (L : Loss) :
  log_ok L ->
  start_log L =
    (inr tt, set_log (log L ++ [repeat (Q2Qc 0) (length (loss L))]) L).
Proof.
  intros H. unfold start_log. rewrite (log_ok_forallb L H). reflexivity.
Qed.

Lemma keeps_after_config (o : op) (L : Loss) : config (after o L) = config L.
Proof.
  destruct o; simpl.
  - apply keeps_start_log_config.
  - apply keeps_forward_config.
  - apply keeps_end_log_config.
Qed.

Lemma log_ok_after (o : op) (L : Loss) : log_ok L -> log_ok (after o L).
Proof.
  intros H.
  assert (Hl : loss (after o L) = loss L).
  { pose proof (keeps_after_config o L) as E. unfold config in E. congruence. }
  destruct o; simpl in *.
  - rewrite (start_log_ok L H) in *. simpl.
    unfold log_ok in *; simpl. apply Forall_app. split; [exact H|].
    constructor; [apply repeat_length | constructor].
  - apply log_ok_shape. rewrite Hl, keeps_forward_shape.
    apply log_ok_shape, H.
  - apply log_ok_shape. rewrite Hl, keeps_end_log_shape.
    apply log_ok_shape, H.
Qed.

Lemma log_ok_run (ops : list op) (L : Loss) : log_ok L -> log_ok (run ops L).
Proof.
  revert L; induction ops as [|o ops IH]; intros L H; simpl; [exact H|].
  apply IH, log_ok_after, H.
Qed.

Lemma keeps_run_config (ops : list op) (L : Loss) :
  config (run ops L) = config L.
Proof.
  revert L; induction ops as [|o ops IH]; intros L; simpl; [reflexivity|].
  rewrite IH. apply keeps_after_config.
Qed.

(** Without a checkpoint the constructor leaves the empty log. *)
Lemma init_fresh_log (args : Args.t) (ckp : Checkpoint) (L : Loss) :
  __init__ args ckp = inr L -> Args.load args = "." -> log L = [].
Proof.
  unfold __init__. intros H Hload. rewrite Hload in H.
  destruct (init_intensity args); [discriminate|].
  destruct (init_terms _ _ _); [discriminate|].
  simpl in H. injection H as <-. reflexivity.
Qed.

(** C9, as the code has it.  On an object whose log has
    [len(self.loss)] columns in every row, as it is after a construction
    without a checkpoint, every sequence of [start_log], [forward] and
    [end_log] keeps it so: [start_log] appends one row of zeros of that
    width, and [forward] and [end_log] change neither the number of rows
    nor the width of any. *)
Theorem log_width_invariant (args : Args.t) (ckp : Checkpoint) (L : Loss)
  (ops : list op) :
  __init__ args ckp = inr L ->
  Args.load args = "." \/ log_ok L ->
  log_ok (run ops L)
  /\ forall S,
       loss S = loss L -> log_ok S ->
       start_log S =
         (inr tt, set_log (log S ++ [repeat (Q2Qc 0) (length (loss L))]) S)
       /\ (forall sr hr, log_shape (after (Forward sr hr) S) = log_shape S)
       /\ (forall n, log_shape (after (EndLog n) S) = log_shape S).
Proof.
  intros H0 Hok.
  assert (log_ok L) as HL.
  { destruct Hok as [Hload|Hok]; [|exact Hok].
    unfold log_ok. rewrite (init_fresh_log _ _ _ H0 Hload). constructor. }
  split; [apply log_ok_run, HL|].
  intros S Hl HS. rewrite <- Hl. split; [apply start_log_ok, HS|].
  split; intros; simpl; [apply keeps_forward_shape | apply keeps_end_log_shape].
Qed.

End Epoch.

Section Averages.

Context `{RT : Runtime}.

(** A call of [forward] that returns has prepared its inputs and read
    every entry. *)
Lemma forward_returns_inv (L L' : Loss) (sr hr : tensor) (s : num)
  (rows : list (list num)) (row : list num) :
  log L = rows ++ [row] ->
  length row = length (loss L) ->
  forward sr hr L = (inr s, L') ->
  exists sr' hr' rs h',
    prepared L sr hr = inr (sr', hr')
    /\ read_terms (loss L) sr' hr' (enumerate (loss L)) (heap L) = inr (rs, h').
Proof.
  intros Hlog Hlen H. rewrite forward_prepared in H.
  destruct (prepared L sr hr) as [e|[sr' hr']]; [discriminate|].
  exists sr', hr'.
  pose proof (forward_loop_readings sr' hr' (loss L) rows (loss L)
                [] row [] L eq_refl Hlog Hlen) as Hloop.
  cbn [length app] in Hloop. fold (enumerate (loss L)) in Hloop.
  destruct (read_terms (loss L) sr' hr' (enumerate (loss L)) (heap L))
    as [e|[rs h']]; [|exists rs, h'; auto].
  exfalso. unfold accumulate in H. unfold bind at 1, gets in H.
  unfold bind at 1 in H.
  destruct (forward_loop sr' hr' (enumerate (loss L)) [] L) as [[e'|x] L1];
    simpl in Hloop; discriminate.
Qed.

(** One batch on a constructed object with more than one entry: the last
    column of the current row grows by the returned sum, and the row
    keeps its width. *)
Lemma forward_total_column (args : Args.t) (ckp : Checkpoint)
  (L0 L L' : Loss) (sr hr : tensor) (s : num) (rows : list (list num))
  (front : list num) (x : num) :
  __init__ args ckp = inr L0 ->
  config L = config L0 ->
  (1 < length (loss L))%nat ->
  log L = rows ++ [front ++ [x]] ->
  length (front ++ [x]) = length (loss L) ->
  forward sr hr L = (inr s, L') ->
  exists front',
    log L' = rows ++ [front' ++ [(x + s)%Qc]]
    /\ length front' = length front.
Proof.
  intros H0 Hcfg Hn Hlog Hlen H.
  destruct (forward_returns_inv _ _ _ _ _ _ _ Hlog Hlen H)
    as (sr' & hr' & rs & h' & Hprep & Hrs).
  destruct (later_loss_list _ _ _ _ H0 Hcfg) as [Hhead Htotal].
  destruct (forward_on_readings _ _ _ _ _ _ _ _ _
              Hhead Htotal Hlog Hlen Hprep Hrs) as (_ & L1 & Hf & Htot).
  rewrite Hf in H. injection H as <- <-.
  destruct (Htot Hn) as (ls & front1 & x1 & front' & _ & Hrow & Hlog' & Hl').
  apply app_inj_tail in Hrow as [<- <-].
  exists front'. split; assumption.
Qed.

(** C5.  On a constructed object with more than one entry: after
    [start_log], two calls of [forward] that return [s1] and [s2], and
    [end_log(2)], the last column of the last row holds [(s1 + s2) / 2]. *)
Theorem total_column_average (args : Args.t) (ckp : Checkpoint)
  (L0 L L1 L2 L3 L4 : Loss) (sr1 hr1 sr2 hr2 : tensor) (s1 s2 : num) :
  __init__ args ckp = inr L0 ->
  config L = config L0 ->
  (1 < length (loss L))%nat ->
  start_log L = (inr tt, L1) ->
  forward sr1 hr1 L1 = (inr s1, L2) ->
  forward sr2 hr2 L2 = (inr s2, L3) ->
  end_log 2 L3 = (inr tt, L4) ->
  exists front,
    log L4 = log L ++ [front ++ [((s1 + s2) / num_of_Z 2)%Qc]]
    /\ length (front ++ [((s1 + s2) / num_of_Z 2)%Qc]) = length (loss L).
Proof.
  intros H0 Hcfg Hn Hstart Hf1 Hf2 Hend.
  assert (Hloss : forall S S' : Loss, config S' = config S -> loss S' = loss S)
    by (unfold config; intros; congruence).
  (* start_log *)
  assert (log_ok L) as Hok.
  { apply forallb_log_ok. unfold start_log in Hstart.
    destruct (forallb _ (log L)); [reflexivity|discriminate]. }
  rewrite (start_log_ok L Hok) in Hstart. injection Hstart as HL1.
  remember (length (loss L)) as n eqn:En.
  assert (Hzero : repeat (Q2Qc 0) n = repeat (Q2Qc 0) (n - 1) ++ [Q2Qc 0]).
  { replace n with (S (n - 1)) at 1 by lia. apply repeat_cons. }
  assert (Hcfg1 : config L1 = config L0) by (rewrite <- HL1; exact Hcfg).
  assert (Hloss1 : loss L1 = loss L) by (rewrite <- HL1; reflexivity).
  assert (Hlog1 : log L1 = log L ++ [repeat (Q2Qc 0) (n - 1) ++ [Q2Qc 0]])
    by (rewrite <- HL1, <- Hzero; reflexivity).
  (* the first batch *)
  destruct (forward_total_column args ckp L0 L1 L2 sr1 hr1 s1 (log L)
              (repeat (Q2Qc 0) (n - 1)) (Q2Qc 0) H0 Hcfg1)
    as (front1 & Hlog2 & Hlen1); [| exact Hlog1 | | exact Hf1 |].
  { rewrite Hloss1, <- En. exact Hn. }
  { rewrite Hloss1, <- En, length_app, repeat_length. simpl. lia. }
  rewrite repeat_length in Hlen1.
  (* the second batch *)
  pose proof (keeps_forward_config sr1 hr1 L1) as K1.
  rewrite Hf1 in K1. simpl in K1.
  assert (Hcfg2 : config L2 = config L0) by congruence.
  assert (Hloss2 : loss L2 = loss L)
    by (rewrite <- Hloss1; apply Hloss; exact K1).
  destruct (forward_total_column args ckp L0 L2 L3 sr2 hr2 s2 (log L)
              front1 (Q2Qc 0 + s1)%Qc H0 Hcfg2)
    as (front2 & Hlog3 & Hlen2); [| exact Hlog2 | | exact Hf2 |].
  { rewrite Hloss2, <- En. exact Hn. }
  { rewrite Hloss2, <- En, length_app. simpl. unfold num in *. lia. }
  (* end_log *)
  rewrite (end_log_rows 2 L3 _ _ Hlog3) in Hend. injection Hend as <-.
  exists (map (fun v => (v / num_of_Z 2)%Qc) front2).
  simpl. rewrite map_app. simpl. rewrite Qcplus_0_l.
  split; [reflexivity|].
  rewrite length_app, length_map. simpl. unfold num in *. lia.
Qed.

End Averages.

(* ------------------------------------------------------------------ *)
(** ** Restoring a checkpoint *)

Lemma alter_at {A : Type} (f g : A -> A) (i : nat) (l : list A) (x : A) :
  nth_error l i = Some x -> f x = g x -> alter f i l = alter g i l.
Proof.
  revert i; induction l as [|y l IH]; intros [|i] Hx Hfg; simpl in *;
    try discriminate.
  - injection Hx as ->. rewrite Hfg. reflexivity.
  - rewrite (IH _ Hx Hfg). reflexivity.
Qed.

Lemma alter_fix {A : Type} (f : A -> A) (i : nat) (l : list A) (x : A) :
  nth_error l i = Some x -> f x = x -> alter f i l = l.
Proof.
  revert i; induction l as [|y l IH]; intros [|i] Hx Hf; simpl in *;
    try discriminate.
  - injection Hx as ->. rewrite Hf. reflexivity.
  - rewrite (IH _ Hx Hf). reflexivity.
Qed.

Lemma nth_error_alter {A : Type} (f : A -> A) (i j : nat) (l : list A) :
  nth_error (alter f i l) j =
    if Nat.eqb i j then option_map f (nth_error l j) else nth_error l j.
Proof.
  revert i j; induction l as [|y l IH]; intros i j.
  - destruct i, j; simpl; try reflexivity.
    destruct (Nat.eqb i j); reflexivity.
  - destruct i, j; simpl; try reflexivity. apply IH.
Qed.

Lemma iter_scheduler_step (times : nat) (m : Module) :
  Nat.iter times scheduler_step m = advance times m.
Proof.
  induction times as [|n IH]; simpl.
  - destruct m as [c [k|] a]; unfold advance; simpl;
      rewrite ?Nat.add_0_r; reflexivity.
  - rewrite IH. unfold scheduler_step, advance. simpl.
    destruct (scheduler m); simpl; [rewrite Nat.add_succ_r|]; reflexivity.
Qed.

Lemma advance_without_scheduler (times : nat) (m : Module) :
  scheduler m = None -> advance times m = m.
Proof. destruct m as [c s a]; simpl; intros ->. reflexivity. Qed.

Lemma advance_all_length (times : nat) (items : list nat) (h : list Module) :
  length (advance_all times items h) = length h.
Proof.
  revert h; induction items as [|r items IH]; intros h; simpl; [reflexivity|].
  unfold advance_all in *; simpl. rewrite IH. apply alter_length.
Qed.

(** Each object of a list without repetition is advanced once, and the
    objects outside the list stay as they were. *)
Lemma advance_all_lookup (times : nat) (items : list nat) :
  NoDup items ->
  forall (h : list Module) (r : nat),
    nth_error (advance_all times items h) r =
      if in_dec Nat.eq_dec r items
      then option_map (advance times) (nth_error h r)
      else nth_error h r.
Proof.
  induction 1 as [|x items Hx Hnd IH]; intros h r; [reflexivity|].
  unfold advance_all in *; simpl fold_left. rewrite IH.
  rewrite nth_error_alter.
  destruct (in_dec Nat.eq_dec r (x :: items)) as [Hin|Hout];
    destruct (in_dec Nat.eq_dec r items) as [Hin'|Hout'];
    destruct (Nat.eqb_spec x r) as [->|Hne]; try reflexivity;
    try (exfalso; simpl in *; tauto).
Qed.

Section Checkpoints.

Context `{RT : Runtime}.

Lemma step_scheduler_run (times r : nat) (L : Loss) (m : Module) :
  nth_error (heap L) r = Some m ->
  step_scheduler times r L =
    (inr tt, set_heap (alter (advance times) r (heap L)) L).
Proof.
  intros Hm. unfold step_scheduler, bind, deref. rewrite Hm.
  destruct (scheduler m) as [k|] eqn:Hs.
  - unfold store, modify. rewrite iter_scheduler_step.
    rewrite (alter_at (fun _ => advance times m) (advance times) r _ m Hm eq_refl).
    reflexivity.
  - unfold ret.
    rewrite (alter_fix _ r _ m Hm (advance_without_scheduler times m Hs)).
    rewrite set_heap_same. reflexivity.
Qed.

Lemma for_each_step_scheduler (times : nat) (items : list nat) :
  forall L : Loss,
    (forall r, In r items -> (r < length (heap L))%nat) ->
    for_each (step_scheduler times) items L =
      (inr tt, set_heap (advance_all times items (heap L)) L).
Proof.
  induction items as [|r items IH]; intros L Hin; simpl.
  - unfold ret, advance_all. simpl. rewrite set_heap_same. reflexivity.
  - destruct (nth_error (heap L) r) as [m|] eqn:Hm.
    + unfold bind. rewrite (step_scheduler_run _ _ _ _ Hm).
      rewrite IH.
      * reflexivity.
      * intros r' Hr'. simpl. rewrite alter_length. apply Hin. right; exact Hr'.
    + apply nth_error_None in Hm. specialize (Hin r (or_introl eq_refl)). lia.
Qed.

(** C8, on an object whose sub-modules are wrapped for several devices.
    [load] restores the state and the log, and then raises [TypeError]
    at [for l in self.loss_module]: no scheduler is advanced. *)
Theorem load_raises_when_wrapped (L : Loss) (ckp : Checkpoint) (cpu : bool)
  (items : list nat) (ids : Z) (blob : state_blob) (h' : list Module)
  (g : list (list num)) :
  loss_module L = DataParallel items ids ->
  loss_pt ckp = Some blob ->
  load_state_dict items (heap L) blob = inr h' ->
  loss_log_pt ckp = Some g ->
  load ckp cpu L = (inl TypeError, set_log g (set_heap h' L)).
Proof.
  intros Hwrap Hblob Hstate Hlog.
  unfold load. rewrite Hblob, Hlog.
  unfold bind, ret, gets, lift, modify, iterate. rewrite Hwrap. simpl.
  rewrite Hstate. reflexivity.
Qed.

(** [step] reaches the same sub-modules through [get_loss_module]. *)
Lemma step_when_wrapped (L : Loss) (items : list nat) (ids : Z) :
  loss_module L = DataParallel items ids ->
  n_GPUs L <> 1 ->
  (forall r, In r items -> (r < length (heap L))%nat) ->
  step L = (inr tt, set_heap (advance_all 1 items (heap L)) L).
Proof.
  intros Hwrap Hn Hin.
  unfold step, get_loss_module, bind at 1 2 3, gets. rewrite Hwrap.
  apply Z.eqb_neq in Hn. rewrite Hn.
  unfold ret, bind, iterate. apply for_each_step_scheduler, Hin.
Qed.

(** X15.  On the plain list, without an object listed twice, [load]
    advances the scheduler of each listed sub-module once per row of the
    restored log and leaves every other object as the restored state has
    it. *)
Lemma load_advances_schedulers (L : Loss) (ckp : Checkpoint) (cpu : bool)
  (items : list nat) (blob : state_blob) (h' : list Module)
  (g : list (list num)) :
  loss_module L = ModuleList items ->
  NoDup items ->
  (forall r, In r items -> (r < length h')%nat) ->
  loss_pt ckp = Some blob ->
  load_state_dict items (heap L) blob = inr h' ->
  loss_log_pt ckp = Some g ->
  exists L',
    load ckp cpu L = (inr tt, L')
    /\ log L' = g
    /\ forall r m,
         nth_error h' r = Some m ->
         nth_error (heap L') r =
           Some (if in_dec Nat.eq_dec r items
                 then advance (length g) m else m).
Proof.
  intros Hlist Hnd Hin Hblob Hstate Hlog.
  eexists. split; [|split].
  - unfold load. rewrite Hblob, Hlog.
    unfold bind at 1, ret at 1. unfold bind at 1, gets at 1.
    unfold bind at 1, gets at 1. rewrite Hlist. simpl submodules.
    unfold bind at 1, lift. rewrite Hstate.
    unfold bind at 1, modify at 1. unfold bind at 1, ret at 1.
    unfold bind at 1, modify at 1. unfold bind at 1, iterate, ret at 1.
    apply for_each_step_scheduler. exact Hin.
  - reflexivity.
  - intros r m Hm. simpl. rewrite (advance_all_lookup _ _ Hnd), Hm.
    destruct (in_dec Nat.eq_dec r items); reflexivity.
Qed.

End Checkpoints.

(* ------------------------------------------------------------------ *)
(** ** The statements on the demonstration runtime *)

(** Each statement that has a premise is applied here to a configuration
    the demonstration runtime runs; the statements the code does not meet
    as written are refuted on one. *)

Lemma mse_l1_entries_witness :
  map shape (loss (demo_object "1*MSE+0.5*L1")) =
    [("MSE", 1%Q, true); ("L1", (1 # 2)%Q, true); ("Total", 0%Q, false)].
Proof.
  apply (mse_l1_entries (RT := demo) (demo_args "1*MSE+0.5*L1") no_checkpoint);
    vm_compute; reflexivity.
Defined.

Lemma gan_alone_entries_witness :
  map shape (loss (demo_object "1*GAN")) =
    [("GAN", 1%Q, true); ("DIS", 1%Q, false); ("Total", 0%Q, false)].
Proof.
  apply (gan_alone_entries (RT := demo) (demo_args "1*GAN") no_checkpoint);
    vm_compute; reflexivity.
Defined.

(** C1 as stated fails: the list of ["1*GAN"] has three entries, the
    last one the Total entry. *)
Lemma gan_alone_has_total :
  __init__ (demo_args "1*GAN") no_checkpoint = inr (demo_object "1*GAN")
  /\ map shape (loss (demo_object "1*GAN")) =
       [("GAN", 1%Q, true); ("DIS", 1%Q, false); ("Total", 0%Q, false)]
  /\ length (loss (demo_object "1*GAN")) <> 2%nat.
Proof.
  split; [vm_compute; reflexivity|].
  split; [vm_compute; reflexivity|].
  vm_compute. discriminate.
Qed.

Lemma later_unknown_kind_is_accepted_witness :
  exists L,
    __init__ (demo_args "1*MSE+1*Foo") no_checkpoint = inr L
    /\ loss L = [mkTerm "MSE" (Q2Qc 1) (Some 0%nat);
                 mkTerm "Foo" (Q2Qc 1) (Some 0%nat); Total]
    /\ heap L = [mkModule MSELoss None None].
Proof.
  apply (later_unknown_kind_is_accepted (RT := demo)
           (demo_args "1*MSE+1*Foo") no_checkpoint); reflexivity.
Defined.

Lemma malformed_term_fails_witness :
  exists e, __init__ (demo_args "1*MSE+L1") no_checkpoint = inl e.
Proof.
  apply (malformed_term_fails (RT := demo) (demo_args "1*MSE+L1")
           no_checkpoint "L1").
  - simpl. right. left. reflexivity.
  - left. unfold lacks_star. simpl. intros [H|[H|[]]]; discriminate.
Defined.

Lemma intensity_mode_witness :
  __init__ (intensity_args 1) no_checkpoint = inl NotImplementedError
  /\ intensity_conv (built (__init__ (intensity_args 255) no_checkpoint))
     = Some luma.
Proof.
  split.
  - apply (proj1 (intensity_mode (RT := demo) (intensity_args 1)
                    no_checkpoint eq_refl) eq_refl).
  - apply (proj2 (intensity_mode (RT := demo) (intensity_args 255)
                    no_checkpoint eq_refl) eq_refl).
    vm_compute; reflexivity.
Defined.

(** C3 as stated fails: in intensity mode the range 300 is accepted, and
    the object holds the kernel of zeros. *)
Lemma range_300_is_accepted :
  __init__ (intensity_args 300) no_checkpoint <> inl NotImplementedError
  /\ exists L,
       __init__ (intensity_args 300) no_checkpoint = inr L
       /\ option_map (map this) (intensity_conv L) = Some [0%Q; 0%Q; 0%Q].
Proof.
  split; [vm_compute; discriminate|].
  exists (built (__init__ (intensity_args 300) no_checkpoint)).
  split; vm_compute; reflexivity.
Qed.

Lemma forward_weighted_sum_witness :
  Forall2 (reading_of (RT := demo) demo_sr demo_hr) (loss demo_started)
          (fst demo_readings)
  /\ exists L',
       forward (RT := demo) demo_sr demo_hr demo_started
       = (inr (sum (reals (fst demo_readings))), L')
       /\ ((1 < length (loss demo_started))%nat ->
           exists ls front x front',
             loss demo_started = ls ++ [Total]
             /\ demo_log_row = front ++ [x]
             /\ log L' =
                  [] ++ [front' ++ [(x + sum (reals (fst demo_readings)))%Qc]]
             /\ length front' = length front).
Proof.
  apply (forward_weighted_sum (RT := demo) (demo_args "1*MSE+0.5*L1")
           no_checkpoint (demo_object "1*MSE+0.5*L1") demo_started
           demo_sr demo_hr demo_sr demo_hr [] demo_log_row
           (fst demo_readings) (snd demo_readings));
    vm_compute; reflexivity.
Defined.

Lemma total_column_average_witness :
  exists front,
    log (snd (end_log 2 (snd (demo_batch (snd (demo_batch demo_started)))))) =
      log (demo_object "1*MSE+0.5*L1") ++
      [front ++ [((fst (demo_batch demo_started)
                   + fst (demo_batch (snd (demo_batch demo_started))))
                  / num_of_Z 2)%Qc]]
    /\ length (front ++ [((fst (demo_batch demo_started)
                   + fst (demo_batch (snd (demo_batch demo_started))))
                  / num_of_Z 2)%Qc])
       = length (loss (demo_object "1*MSE+0.5*L1")).
Proof.
  apply (total_column_average (RT := demo) (demo_args "1*MSE+0.5*L1")
           no_checkpoint (demo_object "1*MSE+0.5*L1")
           (demo_object "1*MSE+0.5*L1") demo_started
           (snd (demo_batch demo_started))
           (snd (demo_batch (snd (demo_batch demo_started))))
           _ demo_sr demo_hr demo_sr demo_hr);
    try (vm_compute; reflexivity).
  vm_compute. lia.
Defined.

Lemma load_raises_when_wrapped_witness :
  load (RT := demo) narrow_checkpoint false
       (built (__init__ wrapped_args no_checkpoint))
  = (inl TypeError,
     set_log [[Q2Qc 7]]
       (set_heap (heap (built (__init__ wrapped_args no_checkpoint)))
                 (built (__init__ wrapped_args no_checkpoint)))).
Proof.
  apply (load_raises_when_wrapped (RT := demo) _ narrow_checkpoint false
           [0%nat] 2 tt); reflexivity.
Defined.

(** Resumed on two devices, the constructor itself raises: it calls
    [load]. *)
Lemma resume_on_two_devices_raises :
  __init__ resumed_wrapped_args narrow_checkpoint = inl TypeError.
Proof. vm_compute. reflexivity. Qed.

(** With a kind that is not recognised after an adversarial term, the
    adversarial object is listed twice, and [load] steps its scheduler
    twice for the one row of the log. *)
Lemma shared_callable_advanced_twice :
  exists L,
    __init__ (resumed_args "1*GAN+1*Foo") one_row_checkpoint = inr L
    /\ loss_module L = ModuleList [0%nat; 0%nat]
    /\ length (log L) = 1%nat
    /\ map scheduler (heap L) = [Some 2%nat].
Proof.
  exists (built (__init__ (resumed_args "1*GAN+1*Foo") one_row_checkpoint)).
  repeat split; vm_compute; reflexivity.
Qed.

Lemma log_width_invariant_witness :
  log_ok (run (RT := demo)
            [StartLog; Forward demo_sr demo_hr; EndLog 1; StartLog]
            (demo_object "1*MSE+0.5*L1")).
Proof.
  apply (proj1 (log_width_invariant (RT := demo) (demo_args "1*MSE+0.5*L1")
                  no_checkpoint (demo_object "1*MSE+0.5*L1") _
                  eq_refl (or_introl eq_refl))).
Defined.

(** C9 as stated fails: constructed from a checkpoint whose log has one
    column, the object of ["1*MSE+0.5*L1"] has three entries and a row of
    width one, and [start_log] raises. *)
Lemma foreign_log_breaks_width :
  exists L,
    __init__ (resumed_args "1*MSE+0.5*L1") narrow_checkpoint = inr L
    /\ length (loss L) = 3%nat
    /\ map (@length num) (log L) = [1%nat]
    /\ ~ log_ok L
    /\ fst (start_log L) = inl RuntimeError.
Proof.
  exists (built (__init__ (resumed_args "1*MSE+0.5*L1") narrow_checkpoint)).
  split; [vm_compute; reflexivity|].
  split; [vm_compute; reflexivity|].
  split; [vm_compute; reflexivity|].
  split; [|vm_compute; reflexivity].
  intros H. inversion H as [|row rows Hw _]. vm_compute in Hw. discriminate.
Qed.

Lemma end_log_last_row_only_witness :
  end_log 2 (demo_object "1*MSE") = (inl IndexError, demo_object "1*MSE")
  /\ end_log 2 demo_started =
       (inr tt,
        set_log ([] ++ [map (fun v => (v / num_of_Z 2)%Qc) demo_log_row])
                demo_started).
Proof.
  split.
  - apply (proj1 (end_log_last_row_only 2 (demo_object "1*MSE"))).
    reflexivity.
  - apply (proj2 (end_log_last_row_only 2 demo_started) [] demo_log_row).
    reflexivity.
Defined.

(* ------------------------------------------------------------------ *)
(** ** Further properties of the class *)

Lemma callables_app (l1 l2 : list LossTerm) :
  callables (l1 ++ l2) = callables l1 ++ callables l2.
Proof.
  induction l1 as [|l l1 IH]; simpl; [reflexivity|].
  destruct (function l); simpl; rewrite IH; reflexivity.
Qed.

Lemma callables_with_dis (l : LossTerm) :
  callables (with_dis l) = callables [l].
Proof.
  unfold with_dis. destruct (0 <=? find (type l) "GAN"); simpl;
    destruct (function l); reflexivity.
Qed.

Lemma callables_with_total (ls : list LossTerm) :
  callables (with_total ls) = callables ls.
Proof.
  unfold with_total. destruct (1 <? _); [|reflexivity].
  rewrite callables_app. simpl. apply app_nil_r.
Qed.

Lemma init_term_entries (ls : list LossTerm) (l : LossTerm) :
  (if 0 <=? find (type l) "GAN"
   then (ls ++ [l]) ++ [mkTerm "DIS" (Q2Qc 1) None]
   else ls ++ [l])
  = ls ++ with_dis l.
Proof.
  unfold with_dis, DIS. destruct (0 <=? find (type l) "GAN");
    [rewrite <- app_assoc|]; reflexivity.
Qed.

Section ListOfConfiguration.
Context `{RT : Runtime}.

(** A round of the constructor's loop that does not raise: what it read,
    what it appended, and where the callable came from, a fresh object
    or the variable [loss_function] of the round before. *)
Lemma init_term_inv (args : Args.t) (st st' : locals) (term : string) :
  init_term args st term = inr st' ->
  exists weight kind v r,
    split "*" term = [weight; kind]
    /\ py_float weight = Some v
    /\ self_loss st' = self_loss st ++ with_dis (mkTerm kind v (Some r))
    /\ loss_function st' = Some r
    /\ ((exists c m,
           select args kind = Some c /\ construct c = inr m
           /\ objects st' = objects st ++ [m]
           /\ r = length (objects st))
        \/ (select args kind = None
            /\ objects st' = objects st
            /\ loss_function st = Some r)).
Proof.
  unfold init_term. intros H.
  destruct (split "*" term) as [|weight [|kind [|x rest]]]; try discriminate.
  exists weight, kind.
  destruct (select args kind) as [c|] eqn:Hsel.
  - destruct (construct c) as [e|m] eqn:Hc; [discriminate|].
    cbn [ebind] in H.
    destruct (py_float weight) as [v|]; [|discriminate]. cbn [ebind] in H.
    injection H as <-. exists v, (length (objects st)).
    split; [reflexivity|]. split; [reflexivity|].
    split; [cbn [self_loss]; exact (init_term_entries _ (mkTerm kind v (Some _)))|].
    split; [reflexivity|].
    left. exists c, m. repeat split; auto.
  - cbn [ebind] in H.
    destruct (py_float weight) as [v|]; [|discriminate]. cbn [ebind] in H.
    destruct (loss_function st) as [r|] eqn:Hf; [|discriminate].
    cbn [ebind] in H. injection H as <-. exists v, r.
    split; [reflexivity|]. split; [reflexivity|].
    split; [cbn [self_loss]; exact (init_term_entries _ (mkTerm kind v (Some _)))|].
    split; [reflexivity|].
    right. repeat split; auto.
Qed.

Lemma init_terms_parsed (args : Args.t) (terms : list string) :
  forall st st',
    init_terms args st terms = inr st' ->
    exists reals,
      Forall2 parsed terms reals
      /\ self_loss st' = self_loss st ++ flat_map with_dis reals.
Proof.
  induction terms as [|t rest IH]; intros st st' H; simpl in H.
  - injection H as <-. exists []. split; [constructor|].
    simpl. rewrite app_nil_r. reflexivity.
  - destruct (init_term args st t) as [e|st1] eqn:Ht; [discriminate|].
    cbn [ebind] in H.
    destruct (init_term_inv _ _ _ _ Ht)
      as (w & k & v & r & Hs & Hw & Hl & _).
    destruct (IH _ _ H) as (reals & Hall & Hrest).
    exists (mkTerm k v (Some r) :: reals). split.
    + constructor; [|exact Hall]. exists w, k, r. auto.
    + rewrite Hrest, Hl, <- app_assoc. reflexivity.
Qed.

(** Without a checkpoint the objects of the new [self] are the ones the
    loop built. *)
Lemma init_fresh_heap (args : Args.t) (ckp : Checkpoint) (L : Loss)
  (st : locals) :
  __init__ args ckp = inr L ->
  Args.load args = "." ->
  init_terms args (mkLocals [] [] None) (split "+" (Args.loss args)) = inr st ->
  heap L = objects st.
Proof.
  unfold __init__. intros H Hload Hst. rewrite Hload, Hst in H.
  destruct (init_intensity args); [discriminate|].
  simpl in H. injection H as <-. reflexivity.
Qed.

Lemma loss_list_parsed (args : Args.t) (ckp : Checkpoint) (L : Loss) :
  __init__ args ckp = inr L ->
  exists reals,
    Forall2 parsed (split "+" (Args.loss args)) reals
    /\ loss L = with_total (flat_map with_dis reals).
Proof.
  intros HL. destruct (init_inv _ _ _ HL) as (st & Hst & Hloss & _).
  destruct (init_terms_parsed _ _ _ _ Hst) as (reals & Hall & Hself).
  exists reals. split; [exact Hall|]. rewrite Hloss, Hself. reflexivity.
Qed.

Lemma callables_flat_map_with_dis (reals : list LossTerm) :
  callables (flat_map with_dis reals) = callables reals.
Proof.
  induction reals as [|l reals IH]; [reflexivity|].
  simpl flat_map. rewrite callables_app, callables_with_dis, IH.
  simpl. destruct (function l); reflexivity.
Qed.

Lemma parsed_callables (terms : list string) (reals : list LossTerm) :
  Forall2 parsed terms reals -> length (callables reals) = length terms.
Proof.
  induction 1 as [|t l terms reals (w & k & r & _ & _ & _ & Hf) _ IH];
    [reflexivity|].
  simpl. rewrite Hf. simpl. rewrite IH. reflexivity.
Qed.

(** X2.  [self.loss_module] lists the callables of the entries in order,
    one for every term of the configuration, the synthetic entries
    adding none. *)
Theorem one_submodule_per_term (args : Args.t) (ckp : Checkpoint) (L : Loss) :
  __init__ args ckp = inr L ->
  submodules (loss_module L) = callables (loss L)
  /\ length (callables (loss L)) = length (split "+" (Args.loss args)).
Proof.
  intros HL. split.
  - destruct (init_inv _ _ _ HL) as (st & _ & _ & _ & _ & _ & _ & _ & ->).
    destruct (negb _ && _); reflexivity.
  - destruct (loss_list_parsed _ _ _ HL) as (reals & Hall & ->).
    rewrite callables_with_total, callables_flat_map_with_dis.
    apply parsed_callables, Hall.
Qed.

(** The references the loop hands out denote objects it has built. *)
Lemma init_terms_refs (args : Args.t) (terms : list string) :
  forall st st',
    init_terms args st terms = inr st' ->
    Forall (fun r => (r < length (objects st))%nat) (callables (self_loss st)) ->
    (forall r, loss_function st = Some r -> (r < length (objects st))%nat) ->
    Forall (fun r => (r < length (objects st'))%nat)
           (callables (self_loss st')).
Proof.
  induction terms as [|t rest IH]; intros st st' H Hall Hf; simpl in H.
  - injection H as <-. exact Hall.
  - destruct (init_term args st t) as [e|st1] eqn:Ht; [discriminate|].
    cbn [ebind] in H.
    destruct (init_term_inv _ _ _ _ Ht)
      as (w & k & v & r & _ & _ & Hl & Hf1 & Hobj).
    assert (Hlen : (length (objects st) <= length (objects st1))%nat
                   /\ (r < length (objects st1))%nat).
    { destruct Hobj as [(c & m & _ & _ & -> & ->)|(_ & -> & Hr)].
      - rewrite length_app. simpl. lia.
      - split; [lia | apply Hf, Hr]. }
    apply (IH _ _ H).
    + rewrite Hl, callables_app, callables_with_dis. simpl.
      apply Forall_app. split.
      * eapply Forall_impl; [|exact Hall]. simpl. intros; lia.
      * constructor; [apply Hlen | constructor].
    + intros r' Hr'. rewrite Hf1 in Hr'. injection Hr' as <-. apply Hlen.
Qed.

(** When every kind is recognised, each round builds an object and hands
    out the reference to it. *)
Lemma init_terms_recognised (args : Args.t) (terms : list string) :
  Forall (recognised args) terms ->
  forall st st',
    init_terms args st terms = inr st' ->
    callables (self_loss st) = seq 0 (length (objects st)) ->
    exists ms,
      Forall2 (constructed args) terms ms
      /\ objects st' = objects st ++ ms
      /\ callables (self_loss st') = seq 0 (length (objects st')).
Proof.
  induction 1 as [|t rest Ht _ IH]; intros st st' H Hseq; simpl in H.
  - injection H as <-. exists []. split; [constructor|].
    rewrite app_nil_r. auto.
  - destruct (init_term args st t) as [e|st1] eqn:Hterm; [discriminate|].
    cbn [ebind] in H.
    destruct (init_term_inv _ _ _ _ Hterm)
      as (w & k & v & r & Hs & _ & Hl & _ & Hobj).
    destruct Hobj as [(c & m & Hsel & Hc & Hm & ->)|(Hsel & _)];
      [|destruct (Ht _ _ Hs Hsel)].
    destruct (IH st1 st' H) as (ms & Hall & Hobjs & Hcall).
    { rewrite Hl, callables_app, callables_with_dis, Hm, Hseq, length_app.
      simpl. rewrite Nat.add_1_r, seq_S. reflexivity. }
    exists (m :: ms). split; [|split].
    + constructor; [|exact Hall]. exists w, k, c. auto.
    + rewrite Hobjs, Hm, <- app_assoc. reflexivity.
    + exact Hcall.
Qed.

(** X3.  When every kind takes a branch of the chain, the entries have
    callables of their own: the references are 0, 1, ... in order, without
    repetition, and, without a checkpoint, the objects of [self] are what
    the constructor calls of the terms returned, in order. *)
Theorem recognised_kinds_own_objects (args : Args.t) (ckp : Checkpoint)
  (L : Loss) :
  __init__ args ckp = inr L ->
  Forall (recognised args) (split "+" (Args.loss args)) ->
  callables (loss L) = seq 0 (length (split "+" (Args.loss args)))
  /\ NoDup (callables (loss L))
  /\ (Args.load args = "." ->
      Forall2 (constructed args) (split "+" (Args.loss args)) (heap L)).
Proof.
  intros HL Hrec.
  destruct (init_inv _ _ _ HL) as (st & Hst & Hloss & _).
  destruct (init_terms_recognised _ _ Hrec _ _ Hst eq_refl)
    as (ms & Hall & Hobjs & Hcall).
  simpl in Hobjs.
  assert (Hc : callables (loss L)
               = seq 0 (length (split "+" (Args.loss args)))).
  { rewrite Hloss, callables_with_total, Hcall, Hobjs.
    rewrite (Forall2_length Hall). reflexivity. }
  split; [exact Hc|]. split; [rewrite Hc; apply seq_NoDup|].
  intros Hload. rewrite (init_fresh_heap _ _ _ _ HL Hload Hst), Hobjs.
  exact Hall.
Qed.

End ListOfConfiguration.

Section UnstartedRow.
Context `{RT : Runtime}.

(** X6.  On a constructed object whose log has no row, [forward]
    raises and the log stays without rows; the exception is [IndexError]
    as soon as the inputs could be prepared and the first callable
    returned. *)
Theorem forward_needs_started_row (args : Args.t) (ckp : Checkpoint)
  (L0 L : Loss) (sr hr : tensor) :
  __init__ args ckp = inr L0 ->
  config L = config L0 ->
  log L = [] ->
  exists e L',
    forward sr hr L = (inl e, L')
    /\ log L' = []
    /\ (forall sr' hr' l rest r m v m',
          prepared L sr hr = inr (sr', hr') ->
          loss L = l :: rest -> function l = Some r ->
          nth_error (heap L) r = Some m ->
          call m sr' hr' = inr (v, m') ->
          e = IndexError).
Proof.
  intros H0 Hcfg Hlog.
  destruct (later_loss_list _ _ _ _ H0 Hcfg) as [(l & rest & r & Hl & Hr) _].
  rewrite forward_prepared.
  destruct (prepared L sr hr) as [e|[sr' hr']].
  { exists e, L. split; [reflexivity|]. split; [exact Hlog|]. discriminate. }
  unfold accumulate, bind at 1, gets. unfold bind at 1.
  rewrite Hl. unfold enumerate. cbn [enumerate_from].
  rewrite forward_loop_cons, forward_term_reading.
  unfold read_term. rewrite Hr.
  destruct (nth_error (heap L) r) as [m|] eqn:Hm.
  2:{ eexists _, L. split; [reflexivity|]. split; [exact Hlog|].
      intros ? ? ? ? ? ? ? ? _ Hl' Hr' Hm'.
      injection Hl' as <- <-. rewrite Hr in Hr'.
      injection Hr' as <-. congruence. }
  destruct (call m sr' hr') as [e|[v m']] eqn:Hc; cbn [ebind].
  { exists e, L. split; [reflexivity|]. split; [exact Hlog|].
    intros ? ? ? ? ? ? ? ? Hp Hl' Hr' Hm'.
    injection Hp as <- <-.
    injection Hl' as <- <-. rewrite Hr in Hr'.
    injection Hr' as <-. congruence. }
  unfold bind at 1, log_iadd. cbn [log set_heap]. rewrite Hlog. cbn.
  eexists _, _. split; [reflexivity|]. split; [exact Hlog|].
  intros; reflexivity.
Qed.

End UnstartedRow.

Lemma nth_error_add_row (row cs : list num) (i : nat) (x c : num) :
  nth_error row i = Some x -> nth_error cs i = Some c ->
  nth_error (add_row row cs) i = Some (x + c)%Qc.
Proof.
  revert cs i; induction row as [|y row IH]; intros [|d cs] [|i] Hx Hc;
    simpl in *; try discriminate.
  - injection Hx as ->. injection Hc as ->. reflexivity.
  - apply IH; assumption.
Qed.

Lemma nth_error_add_last (s : num) (row : list num) (i : nat) :
  (S i < length row)%nat ->
  nth_error (add_last s row) i = nth_error row i.
Proof.
  intros Hi. unfold add_last. rewrite nth_error_alter.
  destruct (Nat.eqb_spec (length row - 1) i); [lia | reflexivity].
Qed.


Lemma row_after_length (n : nat) (row : list num) (rs : list reading) :
  length (row_after n row rs) = length row.
Proof.
  unfold row_after, add_last. destruct (1 <? Z.of_nat n);
    rewrite ?alter_length; apply add_row_length.
Qed.

Lemma row_after_column (n : nat) (row : list num) (rs : list reading)
  (i : nat) (x : num) (r : reading) :
  length row = n ->
  nth_error row i = Some x ->
  nth_error rs i = Some r ->
  (S i < n)%nat \/ n = 1%nat ->
  nth_error (row_after n row rs) i = Some (x + contribution r)%Qc.
Proof.
  intros Hlen Hx Hr Hi. unfold row_after.
  assert (Hadd : nth_error (add_row row (map contribution rs)) i
                 = Some (x + contribution r)%Qc).
  { apply nth_error_add_row; [exact Hx|]. rewrite nth_error_map, Hr.
    reflexivity. }
  destruct (1 <? Z.of_nat n) eqn:Hn; [|exact Hadd].
  rewrite nth_error_add_last; [exact Hadd|].
  rewrite add_row_length. apply Z.ltb_lt in Hn. lia.
Qed.

Section Columns.
Context `{RT : Runtime}.

(** [forward] from the readings: the returned sum, the objects and the
    whole log afterwards. *)
Lemma forward_state (L : Loss) (sr hr sr' hr' : tensor)
  (rows : list (list num)) (row : list num) (rs : list reading)
  (h' : list Module) :
  headed (loss L) ->
  log L = rows ++ [row] ->
  length row = length (loss L) ->
  prepared L sr hr = inr (sr', hr') ->
  read_terms (loss L) sr' hr' (enumerate (loss L)) (heap L) = inr (rs, h') ->
  forward sr hr L =
    (inr (sum (reals rs)),
     set_heap h'
       (set_log (rows ++ [row_after (length (loss L)) row rs]) L)).
Proof.
  intros Hhead Hlog Hlen Hprep Hrs.
  pose proof (read_terms_reading_of _ _ _ _ _ _ _ _ Hrs) as Hof.
  rewrite forward_prepared, Hprep.
  apply accumulate_readings; try assumption.
  eapply headed_reals; eassumption.
Qed.



(** X7.  A call of [forward] that reads every entry leaves the rows
    before the current one and the configuration as they were, the
    objects as the calls left them, and adds to every column but that of
    the Total entry the reading of its entry. *)
Theorem forward_updates_each_column (args : Args.t) (ckp : Checkpoint)
  (L0 L : Loss) (sr hr sr' hr' : tensor) (rows : list (list num))
  (row : list num) (rs : list reading) (h' : list Module) :
  __init__ args ckp = inr L0 ->
  config L = config L0 ->
  log L = rows ++ [row] ->
  length row = length (loss L) ->
  prepared L sr hr = inr (sr', hr') ->
  read_terms (loss L) sr' hr' (enumerate (loss L)) (heap L) = inr (rs, h') ->
  exists row',
    forward sr hr L =
      (inr (sum (reals rs)), set_heap h' (set_log (rows ++ [row']) L))
    /\ length row' = length row
    /\ forall i x r,
         nth_error row i = Some x ->
         nth_error rs i = Some r ->
         (S i < length (loss L))%nat \/ length (loss L) = 1%nat ->
         nth_error row' i = Some (x + contribution r)%Qc.
Proof.
  intros H0 Hcfg Hlog Hlen Hprep Hrs.
  destruct (later_loss_list _ _ _ _ H0 Hcfg) as [Hhead _].
  exists (row_after (length (loss L)) row rs).
  split; [eapply forward_state; eassumption|].
  split; [apply row_after_length|].
  intros i x r Hx Hr Hi. apply row_after_column; assumption.
Qed.


End Columns.

Lemma split_length (sep : ascii) (s : string) :
  length (split sep s)
  = S (count_occ ascii_dec (list_ascii_of_string s) sep).
Proof.
  induction s as [|c s IH]; [reflexivity|]. simpl.
  destruct (Ascii.eqb_spec c sep) as [->|Hne].
  - destruct (ascii_dec sep sep) as [_|H]; [|destruct (H eq_refl)].
    simpl. rewrite IH. reflexivity.
  - destruct (ascii_dec c sep) as [H|_]; [destruct (Hne H)|].
    destruct (split sep s) as [|w ws]; [discriminate IH|]. exact IH.
Qed.

Section SharingAndValue.
Context `{RT : Runtime}.

Lemma init_terms_chained (args : Args.t) (terms : list string) :
  forall st st',
    init_terms args st terms = inr st' ->
    exists reals,
      Forall2 parsed terms reals
      /\ self_loss st' = self_loss st ++ flat_map with_dis reals
      /\ chained args (loss_function st) reals.
Proof.
  induction terms as [|t rest IH]; intros st st' H; simpl in H.
  - injection H as <-. exists []. split; [constructor|].
    simpl. rewrite app_nil_r. auto.
  - destruct (init_term args st t) as [e|st1] eqn:Ht; [discriminate|].
    cbn [ebind] in H.
    destruct (init_term_inv _ _ _ _ Ht)
      as (w & k & v & r & Hs & Hw & Hl & Hf & Hobj).
    destruct (IH _ _ H) as (reals & Hall & Hrest & Hch).
    exists (mkTerm k v (Some r) :: reals). split; [|split].
    + constructor; [|exact Hall]. exists w, k, r. auto.
    + rewrite Hrest, Hl, <- app_assoc. reflexivity.
    + simpl. rewrite Hf in Hch. split; [|exact Hch].
      intros Hsel. destruct Hobj as [(c & m & Hc & _)|(_ & _ & Hprev)];
        [congruence | symmetry; exact Hprev].
Qed.

(** X1.  The list of a constructed object, from its configuration: one
    entry with a callable for every term, in order, with the kind of the
    term and the float of its weight; a DIS entry after every entry whose
    kind contains GAN; the Total entry at the end when that makes more
    than one entry.  An entry whose kind takes no branch of the chain has
    the callable of the entry before it. *)
Theorem loss_list_of_configuration (args : Args.t) (ckp : Checkpoint)
  (L : Loss) :
  __init__ args ckp = inr L ->
  exists reals,
    Forall2 parsed (split "+" (Args.loss args)) reals
    /\ loss L = with_total (flat_map with_dis reals)
    /\ chained args None reals.
Proof.
  intros HL. destruct (init_inv _ _ _ HL) as (st & Hst & Hloss & _).
  destruct (init_terms_chained _ _ _ _ Hst) as (reals & Hall & Hself & Hch).
  exists reals. split; [exact Hall|]. split; [|exact Hch].
  rewrite Hloss, Hself. reflexivity.
Qed.

Lemma init_terms_raise (args : Args.t) (terms : list string) (term : string) :
  In term terms ->
  (forall st, exists e, init_term args st term = inl e) ->
  forall st, exists e, init_terms args st terms = inl e.
Proof.
  intros Hin Hbad. induction terms as [|t rest IH]; [destruct Hin|].
  intros st. simpl. destruct Hin as [->|Hin].
  - destruct (Hbad st) as [e ->]. eexists; reflexivity.
  - destruct (init_term args st t) as [e|st']; simpl;
      [eexists; reflexivity | apply IH; exact Hin].
Qed.

(** X5.  A term of the configuration that does not have exactly one
    ['*'] does not unpack into weight and kind: the constructor raises. *)
Theorem term_needs_exactly_one_star (args : Args.t) (ckp : Checkpoint)
  (term : string) :
  In term (split "+" (Args.loss args)) ->
  count_occ ascii_dec (list_ascii_of_string term) "*"%char <> 1%nat ->
  exists e, __init__ args ckp = inl e.
Proof.
  intros Hin Hstars. unfold __init__.
  destruct (init_intensity args) as [e|conv]; [eexists; reflexivity|].
  destruct (init_terms_raise args _ term Hin) with (st := mkLocals [] [] None)
    as [e ->]; [|eexists; reflexivity].
  intros st. exists ValueError. unfold init_term.
  pose proof (split_length "*" term) as Hlen.
  destruct (split "*" term) as [|a [|b [|c rest]]]; try reflexivity.
  simpl in Hlen. injection Hlen as Hlen. congruence.
Qed.

(** What [forward] returns or raises, from the readings, when there is a
    current row of the right width. *)
Lemma accumulate_returned (sr hr : tensor) (L : Loss)
  (rows : list (list num)) (row : list num) :
  log L = rows ++ [row] ->
  length row = length (loss L) ->
  fst (accumulate sr hr L)
  = returned (length (loss L))
      (read_terms (loss L) sr hr (enumerate (loss L)) (heap L)).
Proof.
  intros Hlog Hlen.
  pose proof (forward_loop_readings sr hr (loss L) rows (loss L)
                [] row [] L eq_refl Hlog Hlen) as Hloop.
  cbn [length app] in Hloop. fold (enumerate (loss L)) in Hloop.
  unfold accumulate. unfold bind at 1, gets. unfold bind at 1.
  destruct (read_terms (loss L) sr hr (enumerate (loss L)) (heap L))
    as [e|[rs h']]; cbn [returned].
  - destruct (forward_loop sr hr (enumerate (loss L)) [] L) as [[e'|x] L1];
      simpl in Hloop; [|discriminate]. simpl. injection Hloop as ->.
    reflexivity.
  - rewrite Hloop. cbn [app].
    destruct (1 <? Z.of_nat (length (loss L))) eqn:Hn; [|reflexivity].
    destruct (reals rs) as [|e es] eqn:He; [reflexivity|].
    unfold bind at 1.
    erewrite log_iadd_last; [reflexivity | reflexivity |].
    intros Hnil. apply (f_equal (@length num)) in Hnil.
    rewrite add_row_length, Hlen in Hnil. simpl in Hnil.
    apply Z.ltb_lt in Hn. lia.
Qed.

Lemma prepared_set_log (g : list (list num)) (L : Loss) (sr hr : tensor) :
  prepared (set_log g L) sr hr = prepared L sr hr.
Proof.
  destruct L as [n ls c il nz range conv g0 h].
  unfold prepared, project, rescale, bind, gets, lift, ret, raise.
  destruct il, nz, conv as [k|]; cbn; try reflexivity;
    destruct (conv2d sr k); cbn; try reflexivity;
    destruct (conv2d hr k); reflexivity.
Qed.

(** X9.  What [forward] returns or raises does not depend on what the
    log holds, as long as there is a current row of the right width. *)
Theorem forward_ignores_log (L : Loss) (sr hr : tensor)
  (rows rows' : list (list num)) (row row' : list num) :
  log L = rows ++ [row] ->
  length row = length (loss L) ->
  length row' = length (loss L) ->
  fst (forward sr hr (set_log (rows' ++ [row']) L)) = fst (forward sr hr L).
Proof.
  intros Hlog Hlen Hlen'.
  rewrite !forward_prepared.
  rewrite prepared_set_log.
  destruct (prepared L sr hr) as [e|[sr' hr']]; [reflexivity|].
  rewrite (accumulate_returned sr' hr' L rows row Hlog Hlen).
  rewrite (accumulate_returned sr' hr' (set_log (rows' ++ [row']) L)
             rows' row' eq_refl Hlen').
  reflexivity.
Qed.

End SharingAndValue.

Lemma keeps_store_frozen (r : nat) (m : Module) : keeps frozen (store r m).
Proof. apply keeps_modify; reflexivity. Qed.

Lemma keeps_log_iadd_frozen (c : Z) (x : num) :
  keeps frozen (log_iadd (-1) c x).
Proof.
  intros L. unfold log_iadd, frozen.
  destruct (log L) as [|row0 g] eqn:Hlog; [cbn; rewrite Hlog; reflexivity|].
  assert (Hne : row0 :: g <> []) by discriminate.
  destruct (exists_last Hne) as (front & row & Hg). rewrite Hg in *.
  rewrite length_app, Nat.add_1_r, py_index_last, nth_error_middle.
  destruct (py_index (length row) c) as [ci|]; simpl; rewrite ?Hlog; auto.
  rewrite (alter_middle _ front [] row), !removelast_last. reflexivity.
Qed.

#[local] Hint Resolve keeps_store_frozen keeps_log_iadd_frozen : frame.

Section EpochRows.
Context `{RT : Runtime}.

Lemma keeps_forward_term_frozen sr hr i l :
  keeps frozen (forward_term sr hr i l).
Proof. unfold forward_term; frame. Qed.

Lemma keeps_forward_loop_frozen sr hr entries losses :
  keeps frozen (forward_loop sr hr entries losses).
Proof.
  revert losses; induction entries as [|[i l] rest IH]; intros; simpl.
  - frame.
  - apply keeps_bind; [apply keeps_forward_term_frozen | intros; apply IH].
Qed.

Lemma keeps_forward_frozen sr hr : keeps frozen (forward sr hr).
Proof.
  unfold forward, project, rescale, accumulate; frame;
    apply keeps_forward_loop_frozen.
Qed.

Lemma keeps_end_log_frozen n : keeps frozen (end_log n).
Proof.
  intros L. unfold end_log, frozen.
  destruct (log L) as [|row0 g] eqn:Hlog; [cbn; rewrite Hlog; reflexivity|].
  assert (Hne : row0 :: g <> []) by discriminate.
  destruct (exists_last Hne) as (front & row & Hg). rewrite Hg in *.
  rewrite length_app, Nat.add_1_r, py_index_last. simpl.
  rewrite (alter_middle _ front [] row), !removelast_last. reflexivity.
Qed.

(** [start_log] freezes the row that was current, or raises and changes
    nothing. *)
Lemma start_log_frozen (L : Loss) :
  frozen (snd (start_log L)) = log L \/ snd (start_log L) = L.
Proof.
  unfold start_log, frozen. destruct (forallb _ _); simpl; [left|right; auto].
  apply removelast_last.
Qed.

Lemma frozen_prefix_of_log (L : Loss) : exists tail, log L = frozen L ++ tail.
Proof.
  unfold frozen. destruct (log L) as [|row0 g] eqn:Hlog.
  - exists []. reflexivity.
  - assert (Hne : row0 :: g <> []) by discriminate.
    destruct (exists_last Hne) as (front & row & ->).
    exists [row]. rewrite removelast_last. reflexivity.
Qed.

Lemma frozen_after (o : op) (L : Loss) :
  exists more, frozen (after o L) = frozen L ++ more.
Proof.
  destruct o; simpl.
  - destruct (start_log_frozen L) as [-> | ->].
    + apply frozen_prefix_of_log.
    + exists []. rewrite app_nil_r. reflexivity.
  - exists []. rewrite app_nil_r. apply keeps_forward_frozen.
  - exists []. rewrite app_nil_r. apply keeps_end_log_frozen.
Qed.

Lemma rows_after (o : op) (L : Loss) :
  log_ok L ->
  length (log (after o L))
  = (length (log L) + starts [o])%nat.
Proof.
  intros Hok. destruct o; simpl.
  - rewrite (start_log_ok L Hok). simpl. rewrite length_app. reflexivity.
  - rewrite Nat.add_0_r.
    pose proof (keeps_forward_shape sr hr L) as K.
    apply (f_equal (@length nat)) in K. unfold log_shape in K.
    rewrite !length_map in K. exact K.
  - rewrite Nat.add_0_r.
    pose proof (keeps_end_log_shape n_batches L) as K.
    apply (f_equal (@length nat)) in K. unfold log_shape in K.
    rewrite !length_map in K. exact K.
Qed.

(** X11.  Whatever [start_log], [forward] and [end_log] are called, and
    whether they raise or not, the rows before the current one stay as
    they are and stay first; on a log of the right width the number of
    rows grows by one for every [start_log]. *)
Theorem completed_rows_are_kept (ops : list op) (L : Loss) :
  (exists more, frozen (run ops L) = frozen L ++ more)
  /\ (log_ok L ->
      length (log (run ops L)) = (length (log L) + starts ops)%nat).
Proof.
  revert L; induction ops as [|o ops IH]; intros L.
  - split; [exists []; rewrite app_nil_r; reflexivity|].
    intros _. simpl. unfold starts. simpl. lia.
  - simpl. destruct (IH (after o L)) as [(more & Hmore) Hrows]. split.
    + destruct (frozen_after o L) as (more0 & Ho).
      exists (more0 ++ more). rewrite Hmore, Ho, app_assoc. reflexivity.
    + intros Hok. rewrite (Hrows (log_ok_after o L Hok)).
      rewrite (rows_after o L Hok). unfold starts. simpl.
      destruct o; simpl; lia.
Qed.

Lemma keeps_step_config : keeps config step.
Proof.
  unfold step, get_loss_module, iterate; frame;
    apply keeps_for_each; intros; apply keeps_step_scheduler_config.
Qed.

Lemma keeps_exec_config (c : method) (L : Loss) : config (exec c L) = config L.
Proof.
  destruct c; simpl.
  - apply keeps_forward_config.
  - apply keeps_step_config.
  - apply keeps_start_log_config.
  - apply keeps_end_log_config.
  - apply keeps_load_config.
Qed.

(** X12.  No sequence of calls of [forward], [step], [start_log],
    [end_log] and [load], raising or not, changes the list of entries, the
    list of sub-modules, the flags, the colour range, the kernel or the
    number of devices. *)
Theorem calls_never_change_config (calls : list method) (L : Loss) :
  config (fold_left (fun S c => exec c S) calls L) = config L.
Proof.
  revert L; induction calls as [|c calls IH]; intros L; simpl;
    [reflexivity|].
  rewrite IH. apply keeps_exec_config.
Qed.

(** The batches of an epoch add their sums to the last column. *)
Lemma feed_total_column (args : Args.t) (ckp : Checkpoint) (L0 : Loss)
  (rows : list (list num)) (batches : list (tensor * tensor)) :
  __init__ args ckp = inr L0 ->
  forall (L L' : Loss) (front : list num) (x : num) (ss : list num),
    config L = config L0 ->
    (1 < length (loss L))%nat ->
    log L = rows ++ [front ++ [x]] ->
    length (front ++ [x]) = length (loss L) ->
    feed batches L = Some (ss, L') ->
    exists front',
      log L' = rows ++ [front' ++ [fold_left Qcplus ss x]]
      /\ length front' = length front.
Proof.
  intros H0. induction batches as [|[sr hr] rest IH];
    intros L L' front x ss Hcfg Hn Hlog Hlen Hfeed; simpl in Hfeed.
  - injection Hfeed as <- <-. exists front. auto.
  - destruct (forward sr hr L) as [[e|s] L1] eqn:Hf; [discriminate|].
    destruct (feed rest L1) as [[ss1 L2]|] eqn:Hrest; [|discriminate].
    injection Hfeed as <- <-.
    destruct (forward_total_column _ _ _ _ _ _ _ _ _ _ _
                H0 Hcfg Hn Hlog Hlen Hf) as (front1 & Hlog1 & Hlen1).
    pose proof (keeps_forward_config sr hr L) as K. rewrite Hf in K.
    simpl in K.
    assert (Hloss : loss L1 = loss L) by (unfold config in K; congruence).
    destruct (IH L1 L2 front1 (x + s)%Qc ss1) as (front2 & Hlog2 & Hlen2);
      try assumption.
    + congruence.
    + rewrite Hloss. exact Hn.
    + rewrite Hloss, <- Hlen, !length_app. simpl. unfold num in *. lia.
    + exists front2. split; [exact Hlog2|]. unfold num in *. lia.
Qed.

(** X10.  An epoch on a constructed object with more than one entry:
    after [start_log], any number of calls of [forward] that return, and
    [end_log(n_batches)], the last column of the new row is the sum of the
    returned values divided by [n_batches], and the rows before it are
    the log the epoch started from. *)
Theorem epoch_total_is_average (args : Args.t) (ckp : Checkpoint)
  (L0 L L1 L2 L3 : Loss) (batches : list (tensor * tensor))
  (ss : list num) (n_batches : Z) :
  __init__ args ckp = inr L0 ->
  config L = config L0 ->
  (1 < length (loss L))%nat ->
  start_log L = (inr tt, L1) ->
  feed batches L1 = Some (ss, L2) ->
  end_log n_batches L2 = (inr tt, L3) ->
  exists front,
    log L3 = log L ++ [front ++ [(sum ss / num_of_Z n_batches)%Qc]]
    /\ S (length front) = length (loss L).
Proof.
  intros H0 Hcfg Hn Hstart Hfeed Hend.
  assert (log_ok L) as Hok.
  { apply forallb_log_ok. unfold start_log in Hstart.
    destruct (forallb _ (log L)); [reflexivity|discriminate]. }
  rewrite (start_log_ok L Hok) in Hstart. injection Hstart as HL1.
  remember (length (loss L)) as n eqn:En.
  assert (Hzero : repeat (Q2Qc 0) n = repeat (Q2Qc 0) (n - 1) ++ [Q2Qc 0]).
  { replace n with (S (n - 1)) at 1 by lia. apply repeat_cons. }
  assert (Hcfg1 : config L1 = config L0) by (rewrite <- HL1; exact Hcfg).
  assert (Hn1 : (1 < length (loss L1))%nat)
    by (rewrite <- HL1; simpl; rewrite <- En; exact Hn).
  assert (Hlog1 : log L1 = log L ++ [repeat (Q2Qc 0) (n - 1) ++ [Q2Qc 0]])
    by (rewrite <- HL1, <- Hzero; reflexivity).
  assert (Hlen1 : length (repeat (Q2Qc 0) (n - 1) ++ [Q2Qc 0])
                  = length (loss L1)).
  { rewrite <- HL1, length_app, repeat_length. simpl. lia. }
  destruct (feed_total_column args ckp L0 (log L) batches H0 L1 L2
              (repeat (Q2Qc 0) (n - 1)) (Q2Qc 0) ss
              Hcfg1 Hn1 Hlog1 Hlen1 Hfeed)
    as (front & Hlog2 & Hlen2).
  rewrite (end_log_rows n_batches L2 _ _ Hlog2) in Hend.
  injection Hend as <-. rewrite repeat_length in Hlen2.
  exists (map (fun v => (v / num_of_Z n_batches)%Qc) front).
  simpl. rewrite map_app. simpl. split; [reflexivity|].
  rewrite length_map. unfold num in *. lia.
Qed.

End EpochRows.

Lemma advance_advance (a b : nat) (m : Module) :
  advance a (advance b m) = advance (b + a) m.
Proof.
  unfold advance. simpl. destruct (scheduler m); simpl; [|reflexivity].
  rewrite Nat.add_assoc. reflexivity.
Qed.

Lemma advance_zero (m : Module) : advance 0 m = m.
Proof.
  destruct m as [c [k|] a]; unfold advance; simpl;
    rewrite ?Nat.add_0_r; reflexivity.
Qed.

(** Each object is advanced once for every time the list names it. *)
Lemma advance_all_count (times : nat) (items : list nat) :
  forall (h : list Module) (r : nat),
    nth_error (advance_all times items h) r =
      option_map (advance (count_occ Nat.eq_dec items r * times))
                 (nth_error h r).
Proof.
  induction items as [|x items IH]; intros h r.
  - simpl. destruct (nth_error h r) as [m|]; simpl;
      [rewrite advance_zero|]; reflexivity.
  - unfold advance_all in *. simpl fold_left. rewrite IH, nth_error_alter.
    simpl count_occ.
    destruct (Nat.eq_dec x r) as [->|Hne].
    + rewrite Nat.eqb_refl. destruct (nth_error h r) as [m|]; simpl;
        [|reflexivity].
      rewrite advance_advance. reflexivity.
    + destruct (Nat.eqb_spec x r) as [->|_]; [destruct (Hne eq_refl)|].
      reflexivity.
Qed.

Lemma advance_all_iter (times : nat) (items : list nat) (h : list Module) :
  advance_all times items h = Nat.iter times (advance_all 1 items) h.
Proof.
  apply nth_error_ext. intros r. rewrite advance_all_count.
  induction times as [|n IH].
  - rewrite Nat.mul_0_r. simpl. destruct (nth_error h r); simpl;
      [rewrite advance_zero|]; reflexivity.
  - simpl Nat.iter. rewrite advance_all_count, <- IH.
    destruct (nth_error h r) as [m|]; simpl; [|reflexivity].
    rewrite advance_advance. do 2 f_equal. lia.
Qed.

Section Schedulers.
Context `{RT : Runtime}.

(** [step] where [get_loss_module] finds the list: every listed object is
    advanced once for every time the list names it. *)
Lemma step_run (L : Loss) (items : list nat) :
  (n_GPUs L = 1 /\ loss_module L = ModuleList items)
  \/ (n_GPUs L <> 1 /\ exists ids, loss_module L = DataParallel items ids) ->
  (forall r, In r items -> (r < length (heap L))%nat) ->
  step L = (inr tt, set_heap (advance_all 1 items (heap L)) L).
Proof.
  intros [[Hn Hc]|[Hn [ids Hc]]] Hin.
  - unfold step, get_loss_module, bind at 1 2 3, gets. rewrite Hn, Hc.
    simpl. unfold ret, bind, iterate. apply for_each_step_scheduler, Hin.
  - apply (step_when_wrapped L items ids Hc Hn Hin).
Qed.

(** X13.  Where [get_loss_module] finds the list of sub-modules, [step]
    returns, leaves the configuration and the log as they were, and
    advances the scheduler of every object once for every time the list
    names it; objects without a scheduler and objects the list does not
    name stay as they are. *)
Theorem step_advances_each_scheduler (L : Loss) (items : list nat) :
  (n_GPUs L = 1 /\ loss_module L = ModuleList items)
  \/ (n_GPUs L <> 1 /\ exists ids, loss_module L = DataParallel items ids) ->
  (forall r, In r items -> (r < length (heap L))%nat) ->
  exists L',
    step L = (inr tt, L')
    /\ config L' = config L
    /\ log L' = log L
    /\ forall r m,
         nth_error (heap L) r = Some m ->
         nth_error (heap L') r =
           Some (advance (count_occ Nat.eq_dec items r) m).
Proof.
  intros Hc Hin. eexists. split; [apply (step_run L items Hc Hin)|].
  split; [reflexivity|]. split; [reflexivity|].
  intros r m Hm. simpl. rewrite advance_all_count, Hm, Nat.mul_1_r.
  reflexivity.
Qed.

(** X14.  On an object constructed for a number of devices other than
    one whose sub-modules were not wrapped (the CPU was asked for, or the
    number is below two), [step] raises [AttributeError] and changes
    nothing: [get_loss_module] asks the plain list for [module]. *)
Theorem step_raises_on_unwrapped_list (args : Args.t) (ckp : Checkpoint)
  (L0 L : Loss) :
  __init__ args ckp = inr L0 ->
  config L = config L0 ->
  Args.n_GPUs args <> 1 ->
  Args.cpu args = true \/ Args.n_GPUs args <= 1 ->
  step L = (inl AttributeError, L).
Proof.
  intros H0 Hcfg Hn Hplain.
  destruct (init_inv _ _ _ H0) as (st & _ & _ & _ & _ & _ & _ & Hg & Hm).
  unfold config in Hcfg. injection Hcfg as HnL _ HmL _ _ _ _.
  unfold step, get_loss_module, bind at 1 2 3, gets.
  rewrite HnL, HmL, Hg, Hm.
  apply Z.eqb_neq in Hn. rewrite Hn.
  replace (negb (Args.cpu args) && (1 <? Args.n_GPUs args)) with false.
  - reflexivity.
  - symmetry. destruct Hplain as [-> | Hle]; [reflexivity|].
    apply andb_false_iff. right. apply Z.ltb_ge. exact Hle.
Qed.

(** X16.  On one device, [load] is the restored state and log followed
    by one call of [step] for every row of the restored log. *)
Theorem load_replays_steps (L : Loss) (ckp : Checkpoint) (cpu : bool)
  (items : list nat) (blob : state_blob) (h' : list Module)
  (g : list (list num)) :
  n_GPUs L = 1 ->
  loss_module L = ModuleList items ->
  (forall r, In r items -> (r < length h')%nat) ->
  loss_pt ckp = Some blob ->
  load_state_dict items (heap L) blob = inr h' ->
  loss_log_pt ckp = Some g ->
  load ckp cpu L =
    (inr tt,
     Nat.iter (length g) (fun S => snd (step S)) (set_log g (set_heap h' L))).
Proof.
  intros Hn Hlist Hin Hblob Hstate Hlog.
  assert (Hsteps : forall k,
            Nat.iter k (fun S => snd (step S)) (set_log g (set_heap h' L))
            = set_log g (set_heap (Nat.iter k (advance_all 1 items) h') L)).
  { induction k as [|k IH]; [reflexivity|]. simpl Nat.iter at 1. rewrite IH.
    rewrite (step_run _ items).
    - reflexivity.
    - left. split; assumption.
    - intros r Hr. simpl.
      clear IH. induction k as [|k IHk]; simpl; [apply Hin, Hr|].
      rewrite advance_all_length. exact IHk. }
  rewrite Hsteps, <- advance_all_iter.
  unfold load. rewrite Hblob, Hlog.
  unfold bind at 1, ret at 1. unfold bind at 1, gets at 1.
  unfold bind at 1, gets at 1. rewrite Hlist. simpl submodules.
  unfold bind at 1, lift. rewrite Hstate.
  unfold bind at 1, modify at 1. unfold bind at 1, ret at 1.
  unfold bind at 1, modify at 1. unfold bind at 1, iterate, ret at 1.
  rewrite for_each_step_scheduler by exact Hin. reflexivity.
Qed.

(** X17.  When one of the two files is missing, [load] raises and
    leaves the log and the configuration as they were; when it is the
    state file, it leaves all of [self] as it was. *)
Theorem load_needs_both_files (L : Loss) (ckp : Checkpoint) (cpu : bool) :
  loss_pt ckp = None \/ loss_log_pt ckp = None ->
  exists e L',
    load ckp cpu L = (inl e, L')
    /\ log L' = log L
    /\ config L' = config L
    /\ (loss_pt ckp = None -> L' = L).
Proof.
  intros Hmiss. unfold load.
  destruct (loss_pt ckp) as [blob|] eqn:Hblob.
  - destruct Hmiss as [Hmiss|Hlog]; [discriminate|]. rewrite Hlog.
    unfold bind at 1, ret at 1. unfold bind at 1, gets at 1.
    unfold bind at 1, gets at 1. unfold bind at 1, lift.
    destruct (load_state_dict _ (heap L) blob) as [e|h'].
    + exists e, L. repeat split; auto.
    + unfold bind at 1, modify at 1. unfold bind at 1, raise.
      eexists _, _. split; [reflexivity|]. repeat split; try discriminate.
  - exists (OtherError "loss.pt"), L. repeat split; auto.
Qed.

End Schedulers.

Lemma Qcdiv_1_r (x : Qc) : (x / num_of_Z (0 + 1))%Qc = x.
Proof.
  unfold Qcdiv. replace (/ num_of_Z (0 + 1))%Qc with (Q2Qc 1).
  - apply Qcmult_1_r.
  - apply Qc_is_canon. reflexivity.
Qed.

Lemma set_log_set_heap_same (h : list Module) (L : Loss) :
  set_log (log L) (set_heap h L) = set_heap h L.
Proof. destruct L; reflexivity. Qed.

Lemma advance_all_without_scheduler (times : nat) (items : list nat)
  (h : list Module) :
  (forall r m, In r items -> nth_error h r = Some m -> scheduler m = None) ->
  advance_all times items h = h.
Proof.
  intros Hnone. apply nth_error_ext. intros r. rewrite advance_all_count.
  destruct (nth_error h r) as [m|] eqn:Hm; [|reflexivity]. simpl. f_equal.
  destruct (in_dec Nat.eq_dec r items) as [Hin|Hout].
  - apply advance_without_scheduler. apply (Hnone r m Hin Hm).
  - rewrite (proj1 (count_occ_not_In Nat.eq_dec items r) Hout).
    apply advance_zero.
Qed.

Section SaveAndDisplay.
Context `{RT : Runtime} `{FM : Formatting} `{SR : !Serialising}.

(** X18.  [load] of what [save] wrote, on the same object with a plain
    list of sub-modules whose state dict loads back: the log and the
    configuration are as before and every scheduler has been advanced
    once more for every row of the log; without schedulers [self] is
    exactly as before. *)
Theorem save_then_load (L : Loss) (cpu : bool) (items : list nat)
  (ckp : Checkpoint) :
  loss_module L = ModuleList items ->
  (forall r, In r items -> (r < length (heap L))%nat) ->
  load_state_dict items (heap L) (state_dict items (heap L)) = inr (heap L) ->
  fst (save L) = inr ckp ->
  load ckp cpu L =
    (inr tt, set_heap (advance_all (length (log L)) items (heap L)) L)
  /\ ((forall r m, In r items -> nth_error (heap L) r = Some m ->
                   scheduler m = None) ->
      load ckp cpu L = (inr tt, L)).
Proof.
  intros Hlist Hin Hround Hsave.
  unfold save in Hsave. simpl in Hsave. injection Hsave as <-.
  rewrite Hlist. simpl submodules.
  assert (Hload :
    load (mkCheckpoint RT (Some (state_dict items (heap L))) (Some (log L)))
         cpu L
    = (inr tt, set_heap (advance_all (length (log L)) items (heap L)) L)).
  { unfold load. simpl loss_pt. simpl loss_log_pt.
    unfold bind at 1, ret at 1. unfold bind at 1, gets at 1.
    unfold bind at 1, gets at 1. rewrite Hlist. simpl submodules.
    unfold bind at 1, lift. rewrite Hround.
    unfold bind at 1, modify at 1. unfold bind at 1, ret at 1.
    unfold bind at 1, modify at 1. unfold bind at 1, iterate, ret at 1.
    rewrite set_heap_same, set_log_same.
    apply for_each_step_scheduler. exact Hin. }
  split; [exact Hload|].
  intros Hnone. rewrite Hload.
  rewrite (advance_all_without_scheduler _ _ _ Hnone), set_heap_same.
  reflexivity.
Qed.

Lemma pieces_after_division (n : Z) (ls : list LossTerm) :
  forall row : list num,
    map (fun p => piece (0 + 1) (fst p) (snd p))
        (combine ls (map (fun v => (v / num_of_Z n)%Qc) row))
    = map (fun p => piece (n - 1 + 1) (fst p) (snd p)) (combine ls row).
Proof.
  induction ls as [|l ls IH]; intros [|c row]; simpl; try reflexivity.
  rewrite IH. f_equal. unfold piece. rewrite Qcdiv_1_r.
  replace (n - 1 + 1) with n by lia. reflexivity.
Qed.

(** X19.  The line [display_loss] gives for batch index 0 after
    [end_log(n)] is the line it gives for batch index [n - 1] before:
    the running average at the last batch is the average of the epoch. *)
Theorem display_after_end_log (n_batches : Z) (L : Loss) :
  fst (display_loss 0 (snd (end_log n_batches L)))
  = fst (display_loss (n_batches - 1) L).
Proof.
  unfold display_loss, end_log, py_get.
  destruct (log L) as [|row0 g] eqn:Hlog; [cbn; rewrite Hlog; reflexivity|].
  assert (Hne : row0 :: g <> []) by discriminate.
  destruct (exists_last Hne) as (front & row & Hg). rewrite Hg in *.
  rewrite length_app, Nat.add_1_r, py_index_last. cbn [snd log set_log].
  rewrite (alter_middle _ front [] row).
  rewrite !length_app, !Nat.add_1_r, py_index_last, !nth_error_middle.
  cbn [fst loss]. rewrite pieces_after_division. reflexivity.
Qed.

End SaveAndDisplay.

(* ------------------------------------------------------------------ *)
(** ** The further properties on the demonstration runtime *)

Lemma loss_list_of_configuration_witness :
  exists reals,
    Forall2 (parsed (RT := demo)) (split "+" "1*GAN+1*Foo") reals
    /\ loss (demo_object "1*GAN+1*Foo") = with_total (flat_map with_dis reals)
    /\ chained (demo_args "1*GAN+1*Foo") None reals.
Proof.
  apply (loss_list_of_configuration (RT := demo) (demo_args "1*GAN+1*Foo")
           no_checkpoint).
  vm_compute. reflexivity.
Defined.

Lemma one_submodule_per_term_witness :
  submodules (loss_module (demo_object "1*GAN+1*Foo"))
  = callables (loss (demo_object "1*GAN+1*Foo"))
  /\ length (callables (loss (demo_object "1*GAN+1*Foo")))
     = length (split "+" "1*GAN+1*Foo").
Proof.
  apply (one_submodule_per_term (RT := demo) (demo_args "1*GAN+1*Foo")
           no_checkpoint).
  vm_compute. reflexivity.
Defined.

Lemma recognised_kinds_own_objects_witness :
  callables (loss (demo_object "1*MSE+0.5*L1")) = seq 0 2
  /\ NoDup (callables (loss (demo_object "1*MSE+0.5*L1")))
  /\ (Args.load (demo_args "1*MSE+0.5*L1") = "." ->
      Forall2 (constructed (RT := demo) (demo_args "1*MSE+0.5*L1"))
              (split "+" "1*MSE+0.5*L1")
              (heap (demo_object "1*MSE+0.5*L1"))).
Proof.
  apply (recognised_kinds_own_objects (RT := demo)
           (demo_args "1*MSE+0.5*L1") no_checkpoint).
  - vm_compute. reflexivity.
  - repeat constructor; intros w k Hs; injection Hs as <- <-; discriminate.
Defined.

Lemma first_unknown_kind_fails_witness :
  exists e, __init__ (demo_args "1*Foo+1*MSE") no_checkpoint = inl e.
Proof.
  apply (first_unknown_kind_fails (RT := demo) (demo_args "1*Foo+1*MSE")
           no_checkpoint "1*Foo" "1" "Foo" ["1*MSE"]); reflexivity.
Defined.

Lemma term_needs_exactly_one_star_witness :
  exists e, __init__ (demo_args "1*MSE+1*2*L1") no_checkpoint = inl e.
Proof.
  apply (term_needs_exactly_one_star (RT := demo) (demo_args "1*MSE+1*2*L1")
           no_checkpoint "1*2*L1").
  - simpl. right. left. reflexivity.
  - vm_compute. discriminate.
Defined.

Lemma forward_needs_started_row_witness :
  exists e L',
    forward (RT := demo) demo_sr demo_hr (demo_object "1*MSE") = (inl e, L')
    /\ log L' = []
    /\ (forall sr' hr' l rest r m v m',
          prepared (RT := demo) (demo_object "1*MSE") demo_sr demo_hr
          = inr (sr', hr') ->
          loss (demo_object "1*MSE") = l :: rest -> function l = Some r ->
          nth_error (heap (demo_object "1*MSE")) r = Some m ->
          call (Runtime := demo) m sr' hr' = inr (v, m') ->
          e = IndexError).
Proof.
  apply (forward_needs_started_row (RT := demo) (demo_args "1*MSE")
           no_checkpoint (demo_object "1*MSE") (demo_object "1*MSE"));
    vm_compute; reflexivity.
Defined.

Lemma forward_updates_each_column_witness :
  exists row',
    forward (RT := demo) demo_sr demo_hr demo_started =
      (inr (sum (reals (fst demo_readings))),
       set_heap (snd demo_readings) (set_log ([] ++ [row']) demo_started))
    /\ length row' = length demo_log_row
    /\ forall i x r,
         nth_error demo_log_row i = Some x ->
         nth_error (fst demo_readings) i = Some r ->
         (S i < length (loss demo_started))%nat
         \/ length (loss demo_started) = 1%nat ->
         nth_error row' i = Some (x + contribution r)%Qc.
Proof.
  apply (forward_updates_each_column (RT := demo) (demo_args "1*MSE+0.5*L1")
           no_checkpoint (demo_object "1*MSE+0.5*L1") demo_started
           demo_sr demo_hr demo_sr demo_hr [] demo_log_row
           (fst demo_readings) (snd demo_readings));
    vm_compute; reflexivity.
Defined.


Lemma forward_ignores_log_witness :
  fst (forward (RT := demo) demo_sr demo_hr
         (set_log ([demo_log_row] ++ [[Q2Qc 5; Q2Qc 6; Q2Qc 7]]) demo_started))
  = fst (forward (RT := demo) demo_sr demo_hr demo_started).
Proof.
  apply (forward_ignores_log (RT := demo) demo_started demo_sr demo_hr
           [] [demo_log_row] demo_log_row [Q2Qc 5; Q2Qc 6; Q2Qc 7]);
    vm_compute; reflexivity.
Defined.

Lemma epoch_total_is_average_witness :
  exists front,
    log (snd (end_log 3 (snd demo_epoch))) =
      log (demo_object "1*MSE+0.5*L1") ++
      [front ++ [(sum (fst demo_epoch) / num_of_Z 3)%Qc]]
    /\ S (length front) = length (loss (demo_object "1*MSE+0.5*L1")).
Proof.
  apply (epoch_total_is_average (RT := demo) (demo_args "1*MSE+0.5*L1")
           no_checkpoint (demo_object "1*MSE+0.5*L1")
           (demo_object "1*MSE+0.5*L1") demo_started (snd demo_epoch) _
           [(demo_sr, demo_hr); (demo_sr, demo_hr); (demo_sr, demo_hr)]);
    try (vm_compute; reflexivity).
  vm_compute. lia.
Defined.

Lemma completed_rows_are_kept_witness :
  length (log (run (RT := demo)
                 [StartLog; Forward demo_sr demo_hr; EndLog 1; StartLog]
                 (demo_object "1*MSE+0.5*L1")))
  = (length (log (demo_object "1*MSE+0.5*L1"))
     + starts (RT := demo)
         [StartLog; Forward demo_sr demo_hr; EndLog 1; StartLog])%nat.
Proof.
  apply (proj2 (completed_rows_are_kept (RT := demo)
                  [StartLog; Forward demo_sr demo_hr; EndLog 1; StartLog]
                  (demo_object "1*MSE+0.5*L1"))).
  vm_compute. constructor.
Defined.

Lemma step_advances_each_scheduler_witness :
  exists L',
    step (demo_object "1*GAN") = (inr tt, L')
    /\ config L' = config (demo_object "1*GAN")
    /\ log L' = log (demo_object "1*GAN")
    /\ forall r m,
         nth_error (heap (demo_object "1*GAN")) r = Some m ->
         nth_error (heap L') r =
           Some (advance (count_occ Nat.eq_dec [0%nat] r) m).
Proof.
  apply (step_advances_each_scheduler (demo_object "1*GAN") [0%nat]).
  - left. split; vm_compute; reflexivity.
  - intros r [<-|[]]. vm_compute. lia.
Defined.

Lemma step_raises_on_unwrapped_list_witness :
  step (built (__init__ cpu_two_devices_args no_checkpoint))
  = (inl AttributeError, built (__init__ cpu_two_devices_args no_checkpoint)).
Proof.
  apply (step_raises_on_unwrapped_list (RT := demo) cpu_two_devices_args
           no_checkpoint (built (__init__ cpu_two_devices_args no_checkpoint))).
  - vm_compute. reflexivity.
  - reflexivity.
  - discriminate.
  - left. reflexivity.
Defined.

Lemma load_advances_schedulers_witness :
  exists L',
    load (RT := demo) one_row_checkpoint true (demo_object "1*GAN")
    = (inr tt, L')
    /\ log L' = [[Q2Qc 1; Q2Qc 1; Q2Qc 1; Q2Qc 2]]
    /\ forall r m,
         nth_error (heap (demo_object "1*GAN")) r = Some m ->
         nth_error (heap L') r =
           Some (if in_dec Nat.eq_dec r [0%nat]
                 then advance
                        (length [[Q2Qc 1; Q2Qc 1; Q2Qc 1; Q2Qc 2]]) m
                 else m).
Proof.
  apply (load_advances_schedulers (RT := demo) (demo_object "1*GAN")
           one_row_checkpoint true [0%nat] tt).
  - vm_compute. reflexivity.
  - repeat constructor. intros [].
  - intros r [<-|[]]. vm_compute. lia.
  - reflexivity.
  - reflexivity.
  - reflexivity.
Defined.

Lemma load_replays_steps_witness :
  load (RT := demo) one_row_checkpoint true (demo_object "1*GAN")
  = (inr tt,
     Nat.iter (length [[Q2Qc 1; Q2Qc 1; Q2Qc 1; Q2Qc 2]])
       (fun S => snd (step S))
       (set_log [[Q2Qc 1; Q2Qc 1; Q2Qc 1; Q2Qc 2]]
          (set_heap (heap (demo_object "1*GAN")) (demo_object "1*GAN")))).
Proof.
  apply (load_replays_steps (RT := demo) (demo_object "1*GAN")
           one_row_checkpoint true [0%nat] tt).
  - vm_compute. reflexivity.
  - vm_compute. reflexivity.
  - intros r [<-|[]]. vm_compute. lia.
  - reflexivity.
  - reflexivity.
  - reflexivity.
Defined.

Lemma load_needs_both_files_witness :
  exists e L',
    load (RT := demo) no_checkpoint true demo_started = (inl e, L')
    /\ log L' = log demo_started
    /\ config L' = config demo_started
    /\ (loss_pt no_checkpoint = None -> L' = demo_started).
Proof.
  apply (load_needs_both_files (RT := demo) demo_started no_checkpoint true).
  left. reflexivity.
Defined.

Lemma save_then_load_witness :
  load (RT := demo) demo_saved true demo_started =
    (inr tt,
     set_heap (advance_all (length (log demo_started)) [0%nat; 1%nat]
                           (heap demo_started)) demo_started)
  /\ ((forall r m, In r [0%nat; 1%nat] ->
                   nth_error (heap demo_started) r = Some m ->
                   scheduler m = None) ->
      load (RT := demo) demo_saved true demo_started = (inr tt, demo_started)).
Proof.
  apply (save_then_load (RT := demo) (SR := demo_serial) demo_started true
           [0%nat; 1%nat] demo_saved).
  - vm_compute. reflexivity.
  - intros r [<-|[<-|[]]]; vm_compute; lia.
  - reflexivity.
  - reflexivity.
Defined.
